(** * create_icon.py: the icon generator of the VS Code Agent extension

    A shallow embedding of [scripts/create_icon.py]: the pixel generator
    [make_pixel], the raw scanline buffer [raw], the PNG chunk framing
    [chunk], the assembled stream [png] and the output path [outpath].

    Python integers are unbounded and are modelled as [Z]. Byte strings are
    [list byte]. Python exceptions are explicit: a computation that may
    raise returns a [result]. Python floats are IEEE-754 binary64 numbers,
    modelled with the executable specification [SpecFloat] of the standard
    library (precision 53, maximal exponent 1024). *)

From Stdlib Require Import ZArith List Bool Lia String Ascii.
From Stdlib Require Import Strings.Byte.
From Stdlib Require Import Floats.SpecFloat.
From Stdlib Require Import DecimalString.
Import ListNotations.

Local Open Scope Z_scope.

(** ** Exceptions *)

Module Py.

Inductive exn : Type :=
| OverflowError       (* int too large to convert to float *)
| StructError         (* struct.error: argument out of range *)
| ZlibError.          (* zlib.error *)

Inductive result (A : Type) : Type :=
| Ok (a : A)
| Raise (e : exn).

Arguments Ok {A} a.
Arguments Raise {A} e.

Definition bind {A B : Type} (r : result A) (k : A -> result B) : result B :=
  match r with
  | Ok a => k a
  | Raise e => Raise e
  end.

End Py.

Import Py.

Notation "x <- r ;; k" := (bind r (fun x => k))
  (at level 61, r at next level, right associativity).

Definition bytes : Type := list byte.

(** ** Floating point: binary64 *)

Module F64.

Definition prec : Z := 53.
Definition emax : Z := 1024.

(** Conversion of a Python int to a float, as [PyLong_AsDouble] does it:
    the integer is rounded to the nearest binary64 number, ties to even,
    and [OverflowError] is raised when the rounded value is not finite. *)
Definition of_int (n : Z) : result spec_float :=
  match binary_normalize prec emax n 0 false with
  | S754_infinity _ => Raise OverflowError
  | f => Ok f
  end.

(** [v ** 0.5] for a float [v >= 0] (the base is a sum of two squares):
    [float_pow] answers [0.0] for a zero base and otherwise calls the C
    library's [pow(v, 0.5)]. It is modelled as the correctly rounded
    square root of IEEE-754. The value a library's [pow] returns can
    differ from it by one unit in the last place (as at 2921 or 3541); it
    is the same where the root is a double, as at 2304. [make_pixel] only
    compares the value with 48, and what is proved below about [dist_of]
    is used for that comparison alone. *)
Definition pow_half (v : spec_float) : spec_float := SFsqrt prec emax v.

(** [v <= k] for a float [v] and a small int [k]: the int is converted
    exactly and the two doubles are compared. *)
Definition le_int (v : spec_float) (k : Z) : bool :=
  SFleb v (binary_normalize prec emax k 0 false).

End F64.

(** ** Pixel generator *)

Definition width : Z := 128.
Definition height : Z := 128.

(** An RGBA tuple of Python ints. *)
Definition rgba : Type := (Z * Z * Z * Z)%type.

(** [dist = (dx*dx + dy*dy) ** 0.5]: the int is converted to a float
    (which may raise), then raised to the power one half. *)
Definition dist_of (sq : Z) : result spec_float :=
  v <- F64.of_int sq ;; Ok (F64.pow_half v).

Definition make_pixel (x y : Z) : result rgba :=
  let cx := 64 in
  let cy := 64 in
  let dx := x - cx in
  let dy := y - cy in
  dist <- dist_of (dx * dx + dy * dy) ;;
  (* Main circle (robot head) *)
  if F64.le_int dist 48 then
    (* Eyes *)
    let eyes : option rgba :=
      if (43 <=? y) && (y <=? 55) then
        let ldx := x - 48 in
        let ldy := y - 48 in
        if ldx * ldx + ldy * ldy <=? 64 then Some (255, 255, 255, 255)
        else
          let rdx := x - 80 in
          let rdy := y - 48 in
          if rdx * rdx + rdy * rdy <=? 64 then Some (255, 255, 255, 255)
          else None
      else None in
    match eyes with
    | Some c => Ok c
    | None =>
      (* Mouth *)
      if (68 <=? y) && (y <=? 72) && ((48 <=? x) && (x <=? 80)) then
        Ok (255, 255, 255, 255)
      (* Antenna stem *)
      else if (14 <=? y) && (y <=? 18) && ((62 <=? x) && (x <=? 66)) then
        Ok (100, 149, 237, 255)
      else
        (* Antenna ball *)
        let ball : bool :=
          if (y <? 18) && ((58 <=? x) && (x <=? 70)) then
            let dx2 := x - 64 in
            let dy2 := y - 10 in
            dx2 * dx2 + dy2 * dy2 <=? 36
          else false in
        if ball then Ok (100, 149, 237, 255)
        (* Head fill *)
        else Ok (65, 105, 225, 255)
    end
  else Ok (0, 0, 0, 0).

(** ** Raw scanline buffer *)

(** [for i in range(n): s = body(i, s)], stopping at the first exception. *)
Fixpoint for_from {S : Type} (i : Z) (n : nat) (body : Z -> S -> result S) (s : S)
  : result S :=
  match n with
  | O => Ok s
  | S n' => s' <- body i s ;; for_from (i + 1) n' body s'
  end.

Definition for_range {S : Type} (n : Z) (body : Z -> S -> result S) (s : S)
  : result S :=
  for_from 0 (Z.to_nat n) body s.

(** The byte of value [v mod 256]. *)
Definition byte_of_Z (v : Z) : byte :=
  match Byte.of_N (Z.to_N (v mod 256)) with
  | Some b => b
  | None => x00
  end.

Definition Z_of_byte (b : byte) : Z := Z.of_N (Byte.to_N b).

(** The four bytes of [v], most significant first. *)
Definition be32 (v : Z) : bytes :=
  map (fun k => byte_of_Z (Z.land (Z.shiftr v k) 255)) [24; 16; 8; 0].

(** [struct.pack]: the format codes the script uses. ['B'] is an unsigned
    char, ['I'] an unsigned 32-bit int, written big-endian (['>']); a value
    out of range or a wrong number of arguments raises [struct.error]. *)
Inductive fmt : Type := fmt_B | fmt_I.

Definition pack_one (f : fmt) (v : Z) : result bytes :=
  match f with
  | fmt_B => if (0 <=? v) && (v <=? 255) then Ok [byte_of_Z v]
             else Raise StructError
  | fmt_I => if (0 <=? v) && (v <=? 4294967295) then Ok (be32 v)
             else Raise StructError
  end.

Fixpoint pack (fs : list fmt) (vs : list Z) : result bytes :=
  match fs, vs with
  | [], [] => Ok []
  | f :: fs', v :: vs' =>
      b <- pack_one f v ;; rest <- pack fs' vs' ;; Ok (b ++ rest)
  | _, _ => Raise StructError
  end.

Definition raw : result bytes :=
  for_range height (fun y raw =>
    let raw := raw ++ [x00] in
    for_range width (fun x raw =>
      px <- make_pixel x y ;;
      let '(r, g, b, a) := px in
      p <- pack [fmt_B; fmt_B; fmt_B; fmt_B] [r; g; b; a] ;;
      Ok (raw ++ p)) raw) [].

(** ** PNG encoder *)

(** [zlib.crc32]: the CRC-32 of ISO 3309 and of the PNG specification
    (reflected polynomial [0xEDB88320], initial value and final xor
    [0xFFFFFFFF]), computed bit by bit. *)
Definition crc32_shift (c : Z) : Z :=
  if Z.testbit c 0 then Z.lxor (Z.shiftr c 1) 0xEDB88320 else Z.shiftr c 1.

Definition crc32_update (c : Z) (b : byte) : Z :=
  Nat.iter 8 crc32_shift (Z.lxor c (Z_of_byte b)).

Definition crc32 (data : bytes) : Z :=
  Z.lxor (fold_left crc32_update data 0xFFFFFFFF) 0xFFFFFFFF.

Definition chunk (ctype data : bytes) : result bytes :=
  let c := ctype ++ data in
  len <- pack [fmt_I] [Z.of_nat (List.length data)] ;;
  crc <- pack [fmt_I] [Z.land (crc32 c) 0xffffffff] ;;
  Ok (len ++ c ++ crc).

(** [b'\x89PNG\r\n\x1a\n'] *)
Definition sig : bytes := [x89; x50; x4e; x47; x0d; x0a; x1a; x0a].

Definition IHDR : bytes := [x49; x48; x44; x52].
Definition IDAT : bytes := [x49; x44; x41; x54].
Definition IEND : bytes := [x49; x45; x4e; x44].

Definition ihdr : result bytes :=
  pack [fmt_I; fmt_I; fmt_B; fmt_B; fmt_B; fmt_B; fmt_B]
       [width; height; 8; 6; 0; 0; 0].

(** ** Paths ([os.path] on POSIX) *)

Local Open Scope string_scope.

Definition sep : ascii := "/"%char.

Definition starts_with_sep (s : string) : bool :=
  match s with
  | String c _ => Ascii.eqb c sep
  | EmptyString => false
  end.

Fixpoint ends_with_sep (s : string) : bool :=
  match s with
  | EmptyString => false
  | String c EmptyString => Ascii.eqb c sep
  | String _ s' => ends_with_sep s'
  end.

(** One step of [os.path.join]: an absolute component replaces the path,
    otherwise it is appended, after a separator unless the path is empty
    or already ends with one. *)
Definition join1 (path b : string) : string :=
  if starts_with_sep b then b
  else if (path =? "") || ends_with_sep path then path ++ b
  else path ++ "/" ++ b.

Definition path_join (a : string) (p : list string) : string :=
  fold_left join1 p a.

(** [p[:p.rfind('/') + 1]] *)
Fixpoint head_of (p : string) : string :=
  match p with
  | EmptyString => EmptyString
  | String c p' =>
      let h := head_of p' in
      if Ascii.eqb c sep then String c h
      else match h with
           | EmptyString => EmptyString
           | _ => String c h
           end
  end.

Fixpoint all_sep (s : string) : bool :=
  match s with
  | EmptyString => true
  | String c s' => Ascii.eqb c sep && all_sep s'
  end.

(** [s.rstrip('/')] *)
Fixpoint rstrip_sep (s : string) : string :=
  match s with
  | EmptyString => EmptyString
  | String c s' =>
      match rstrip_sep s' with
      | EmptyString => if Ascii.eqb c sep then EmptyString else String c EmptyString
      | r => String c r
      end
  end.

Definition dirname (p : string) : string :=
  let head := head_of p in
  if negb (head =? "") && negb (all_sep head) then rstrip_sep head else head.

Definition outpath (file : string) : string :=
  path_join (dirname file) [".."; "media"; "icon.png"].

(** The components of [os.path.normpath p]: empty components and ["."]
    are dropped and [".."] cancels the component before it; above the root
    of an absolute path [".."] is dropped, and at the front of a relative
    path it stays. As [normpath], this reads the path as text: where a
    component is a symbolic link the file system may lead elsewhere. *)
Fixpoint split_sep (s : string) (cur : string) : list string :=
  match s with
  | EmptyString => [cur]
  | String c s' =>
      if Ascii.eqb c sep then cur :: split_sep s' ""
      else split_sep s' (cur ++ String c "")
  end.

Definition resolve (p : string) : list string :=
  rev (fold_left
         (fun acc comp =>
            if (comp =? "") || (comp =? ".") then acc
            else if comp =? ".." then
              match acc with
              | [] => if starts_with_sep p then [] else [comp]
              | top :: rest => if top =? ".." then comp :: acc else rest
              end
            else comp :: acc)
         (split_sep p "") []).

(** ** The script *)

(** The calls the script makes to the operating system, in order. *)
Inductive effect : Type :=
| Makedirs (path : string) (exist_ok : bool)
| WriteFile (path : string) (data : bytes)   (* open(path, 'wb'); f.write(data) *)
| Print (line : string).

Definition decimal (n : Z) : string := NilZero.string_of_int (Z.to_int n).

Section Encoder.

(** [zlib.compress(data, level)] is the deflate implementation of the
    zlib library, taken as a parameter. *)
Variable zlib_compress : bytes -> Z -> result bytes.

Definition idat (raw : bytes) : result bytes := zlib_compress raw 9.

Definition png : result bytes :=
  raw <- raw ;;
  ihdr <- ihdr ;;
  idat <- idat raw ;;
  c1 <- chunk IHDR ihdr ;;
  c2 <- chunk IDAT idat ;;
  c3 <- chunk IEND [] ;;
  Ok (sig ++ c1 ++ c2 ++ c3)%list.

(** The module body after [png]: with [file] the value of [__file__]. *)
Definition script (file : string) : result (list effect) :=
  png <- png ;;
  let outpath := outpath file in
  Ok [ Makedirs (dirname outpath) true;
       WriteFile outpath png;
       Print ("Created icon.png: " ++ decimal (Z.of_nat (List.length png)) ++ " bytes") ].

End Encoder.

Local Close Scope string_scope.

(** ** A reader of the header of a PNG stream

    What a decoder does with the first 33 bytes: check the signature, read
    the first chunk, check its type and CRC, and split the 13 bytes of the
    header into its seven fields. *)

Definition be_to_Z (bs : bytes) : Z :=
  fold_left (fun acc b => acc * 256 + Z_of_byte b) bs 0.

Definition bytes_eqb (a b : bytes) : bool :=
  if list_eq_dec Byte.byte_eq_dec a b then true else false.

Record header : Type := {
  h_width : Z; h_height : Z; h_depth : Z; h_color : Z;
  h_compression : Z; h_filter : Z; h_interlace : Z }.

Definition read_header (stream : bytes) : option header :=
  if bytes_eqb (firstn 8 stream) sig then
    let s1 := skipn 8 stream in
    let len := be_to_Z (firstn 4 s1) in
    let typ := firstn 4 (skipn 4 s1) in
    let dat := firstn 13 (skipn 8 s1) in
    let crc := be_to_Z (firstn 4 (skipn 21 s1)) in
    if (len =? 13) && bytes_eqb typ IHDR && (List.length dat =? 13)%nat
       && (crc =? crc32 (typ ++ dat)) then
      Some {| h_width := be_to_Z (firstn 4 dat);
              h_height := be_to_Z (firstn 4 (skipn 4 dat));
              h_depth := be_to_Z (firstn 1 (skipn 8 dat));
              h_color := be_to_Z (firstn 1 (skipn 9 dat));
              h_compression := be_to_Z (firstn 1 (skipn 10 dat));
              h_filter := be_to_Z (firstn 1 (skipn 11 dat));
              h_interlace := be_to_Z (firstn 1 (skipn 12 dat)) |}
    else None
  else None.

(** ** Definitions used to state the properties *)

(** The squared distance to the centre of the head, an exact integer. *)
Definition sq_dist (x y : Z) : Z := (x - 64) * (x - 64) + (y - 64) * (y - 64).

(** From this bound on, the conversion of an int to a float overflows:
    [2^1024 - 2^970] is the midpoint between the largest double and
    [2^1024]. *)
Definition overflow_threshold : Z := 2 ^ 1024 - 2 ^ 970.

(** The colour inside the head, as the integer tests of [make_pixel]
    choose it. *)
Definition head_color (x y : Z) : rgba :=
  if (43 <=? y) && (y <=? 55)
     && (((x - 48) * (x - 48) + (y - 48) * (y - 48) <=? 64)
         || ((x - 80) * (x - 80) + (y - 48) * (y - 48) <=? 64))
  then (255, 255, 255, 255)
  else if (68 <=? y) && (y <=? 72) && ((48 <=? x) && (x <=? 80))
  then (255, 255, 255, 255)
  else if (14 <=? y) && (y <=? 18) && ((62 <=? x) && (x <=? 66))
  then (100, 149, 237, 255)
  else (65, 105, 225, 255).

(** [make_pixel] without floats: the head test on the exact integer. *)
Definition make_pixel_int (x y : Z) : rgba :=
  if sq_dist x y <=? 48 * 48 then head_color x y else (0, 0, 0, 0).

(** [i; i+1; ...], [n] numbers. *)
Fixpoint Zseq (i : Z) (n : nat) : list Z :=
  match n with
  | O => []
  | S n' => i :: Zseq (i + 1) n'
  end.

Definition px_bytes (y x : Z) : bytes :=
  let '(r, g, b, a) := make_pixel_int x y in
  [byte_of_Z r; byte_of_Z g; byte_of_Z b; byte_of_Z a].

Definition scanline (y : Z) : bytes :=
  x00 :: flat_map (px_bytes y) (Zseq 0 128).

Definition buffer : bytes := flat_map scanline (Zseq 0 128).

(** A chunk as the PNG specification frames it. *)
Definition frame (ctype data : bytes) : bytes :=
  be32 (Z.of_nat (List.length data)) ++ ctype ++ data ++ be32 (crc32 (ctype ++ data)).

Definition ihdr_bytes : bytes :=
  [x00; x00; x00; x80; x00; x00; x00; x80; x08; x06; x00; x00; x00].

Definition fmap {A B : Type} (f : A -> B) (r : result A) : result B :=
  match r with
  | Ok a => Ok (f a)
  | Raise e => Raise e
  end.

(** A finite double, or infinity when the exponent is too large. *)
Definition fin_or_inf (m e : Z) : spec_float :=
  if e <=? 971 then S754_finite false (Z.to_pos m) e else S754_infinity false.

Definition f48 : spec_float := binary_normalize 53 1024 48 0 false.

(** The directory of the script, ready to be followed by a relative
    path: empty when [__file__] has no directory part, and ending with a
    separator otherwise. *)
Definition base_of (d : string) : string :=
  if (d =? "")%string then ""%string
  else if ends_with_sep d then d
  else (d ++ "/")%string.

(** ** A reader of chunks

    What a decoder does with a stream: read the length, the type, as many
    bytes of data as the length says and the CRC, refuse a stream that is
    too short or whose CRC does not match, and go on with the rest until
    the end chunk, after which nothing may follow. *)

Definition read_chunk (s : bytes) : option (bytes * bytes * bytes) :=
  let n := Z.to_nat (be_to_Z (firstn 4 s)) in
  let typ := firstn 4 (skipn 4 s) in
  let dat := firstn n (skipn 8 s) in
  let crc := firstn 4 (skipn (8 + n) s) in
  if (12 + n <=? List.length s)%nat && (be_to_Z crc =? crc32 (typ ++ dat))
  then Some (typ, dat, skipn (12 + n) s)
  else None.

Fixpoint read_chunks (fuel : nat) (s : bytes) : option (list (bytes * bytes)) :=
  match fuel with
  | O => None
  | S fuel' =>
      match read_chunk s with
      | None => None
      | Some (typ, dat, rest) =>
          if bytes_eqb typ IEND then
            match rest with
            | [] => Some [(typ, dat)]
            | _ :: _ => None
            end
          else
            match read_chunks fuel' rest with
            | Some l => Some ((typ, dat) :: l)
            | None => None
            end
      end
  end.

Definition read_png (s : bytes) : option (list (bytes * bytes)) :=
  if bytes_eqb (firstn 8 s) sig then read_chunks (List.length s) (skipn 8 s)
  else None.

(** * Properties *)

(** ** Binary64: conversion, square root and comparison *)

Lemma digits2_pos_bounds (p : positive) :
  2 ^ (Zpos (digits2_pos p) - 1) <= Zpos p < 2 ^ Zpos (digits2_pos p).
Proof.
  induction p as [p IH | p IH |]; cbn [digits2_pos].
  - rewrite Pos2Z.inj_succ.
    replace (Z.succ (Zpos (digits2_pos p)) - 1) with (Z.succ (Zpos (digits2_pos p) - 1)) by lia.
    rewrite !Z.pow_succ_r by lia. lia.
  - rewrite Pos2Z.inj_succ.
    replace (Z.succ (Zpos (digits2_pos p)) - 1) with (Z.succ (Zpos (digits2_pos p) - 1)) by lia.
    rewrite !Z.pow_succ_r by lia. lia.
  - cbn. lia.
Qed.

Lemma Zdigits2_bounds (m : Z) :
  0 < m -> 2 ^ (Zdigits2 m - 1) <= m < 2 ^ Zdigits2 m.
Proof.
  destruct m as [| p | p]; try lia. intros _. apply digits2_pos_bounds.
Qed.

Lemma Zdigits2_pos (m : Z) : 0 < m -> 0 < Zdigits2 m.
Proof. destruct m; cbn; lia. Qed.

Lemma Zdigits2_unique (m d : Z) :
  2 ^ (d - 1) <= m < 2 ^ d -> 0 < m -> Zdigits2 m = d.
Proof.
  intros H Hm.
  pose proof (Zdigits2_bounds m Hm) as Hb.
  pose proof (Zdigits2_pos m Hm) as Hp.
  assert (0 < d).
  { destruct (Z.ltb_spec 0 d); auto.
    assert (2 ^ d <= 1).
    { destruct (Z.eqb_spec d 0). subst; cbn; lia. rewrite Z.pow_neg_r by lia. lia. }
    lia. }
  destruct (Z.lt_trichotomy (Zdigits2 m) d) as [Hlt | [Heq | Hgt]]; auto.
  - assert (2 ^ Zdigits2 m <= 2 ^ (d - 1)) by (apply Z.pow_le_mono_r; lia). lia.
  - assert (2 ^ d <= 2 ^ (Zdigits2 m - 1)) by (apply Z.pow_le_mono_r; lia). lia.
Qed.

(** shifting right *)
Lemma shr_1_m (mrs : shr_record) :
  0 <= shr_m mrs -> shr_m (shr_1 mrs) = Z.div2 (shr_m mrs).
Proof.
  destruct mrs as [m r s]; cbn [shr_m]. intros H.
  destruct m as [| [p | p |] | p]; try lia; reflexivity.
Qed.

Lemma shr_1_r (mrs : shr_record) :
  0 <= shr_m mrs -> shr_r (shr_1 mrs) = Z.odd (shr_m mrs).
Proof.
  destruct mrs as [m r s]; cbn [shr_m]. intros H.
  destruct m as [| [p | p |] | p]; try lia; reflexivity.
Qed.

Lemma iter_shr_1 (p : positive) : forall mrs : shr_record,
  0 <= shr_m mrs ->
  shr_m (iter_pos shr_1 p mrs) = Z.shiftr (shr_m mrs) (Zpos p) /\
  shr_r (iter_pos shr_1 p mrs) = Z.testbit (shr_m mrs) (Zpos p - 1).
Proof.
  induction p as [p IH | p IH |]; intros mrs Hm; cbn [iter_pos].
  - assert (H1 : 0 <= shr_m (shr_1 mrs)).
    { rewrite shr_1_m by assumption. rewrite Z.div2_spec. apply Z.shiftr_nonneg. assumption. }
    destruct (IH _ H1) as [Ha Hb].
    assert (H2 : 0 <= shr_m (iter_pos shr_1 p (shr_1 mrs))).
    { rewrite Ha. apply Z.shiftr_nonneg. assumption. }
    destruct (IH _ H2) as [Hc Hd].
    rewrite Hc, Hd, Ha, shr_1_m by assumption.
    rewrite Z.div2_spec. split.
    + rewrite !Z.shiftr_shiftr by lia. f_equal. lia.
    + rewrite Z.shiftr_shiftr by lia. rewrite Z.shiftr_spec by lia. f_equal. lia.
  - destruct (IH _ Hm) as [Ha Hb].
    assert (H2 : 0 <= shr_m (iter_pos shr_1 p mrs)).
    { rewrite Ha. apply Z.shiftr_nonneg. assumption. }
    destruct (IH _ H2) as [Hc Hd].
    rewrite Hc, Hd, Ha. split.
    + rewrite Z.shiftr_shiftr by lia. f_equal. lia.
    + rewrite Z.shiftr_spec by lia. f_equal. lia.
  - rewrite shr_1_m, shr_1_r by assumption. split.
    + rewrite Z.div2_spec. reflexivity.
    + rewrite Z.bit0_odd. reflexivity.
Qed.

Lemma fexp_normal (e : Z) : -1021 <= e -> fexp 53 1024 e = e - 53.
Proof. intros H. unfold fexp, emin. lia. Qed.

Lemma shr_record_of_loc_m m l : shr_m (shr_record_of_loc m l) = m.
Proof. destruct l as [| []]; reflexivity. Qed.

Lemma shr_fexp_shape (mx ex : Z) (lx : location) :
  0 < mx -> 53 <= Zdigits2 mx -> -1074 <= ex ->
  let k := Zdigits2 mx - 53 in
  let res := shr_fexp 53 1024 mx ex lx in
  snd res = ex + k /\
  shr_m (fst res) = Z.shiftr mx k /\
  (0 < k -> shr_r (fst res) = Z.testbit mx (k - 1)) /\
  (k = 0 -> fst res = shr_record_of_loc mx lx).
Proof.
  intros Hm Hd He k res. subst res. unfold shr_fexp.
  rewrite fexp_normal by lia.
  replace (Zdigits2 mx + ex - 53 - ex) with k by (unfold k; lia).
  unfold shr. destruct k as [| p | p] eqn:Hk; try lia.
  - cbn [fst snd]. rewrite shr_record_of_loc_m, Z.shiftr_0_r.
    repeat split; try lia. 
  - cbn [fst snd].
    destruct (iter_shr_1 p (shr_record_of_loc mx lx)) as [Ha Hb].
    { rewrite shr_record_of_loc_m. lia. }
    rewrite shr_record_of_loc_m in Ha, Hb.
    repeat split; auto; lia.
Qed.

Lemma shiftr_digits_bounds (mx : Z) :
  0 < mx -> 53 <= Zdigits2 mx ->
  2 ^ 52 <= Z.shiftr mx (Zdigits2 mx - 53) < 2 ^ 53.
Proof.
  intros Hm Hd. pose proof (Zdigits2_bounds mx Hm) as Hb.
  set (k := Zdigits2 mx - 53) in *.
  assert (Hk : 0 <= k) by lia.
  rewrite Z.shiftr_div_pow2 by assumption.
  assert (Hp : 0 < 2 ^ k) by (apply Z.pow_pos_nonneg; lia).
  replace (Zdigits2 mx - 1) with (52 + k) in Hb by lia.
  replace (Zdigits2 mx) with (53 + k) in Hb by lia.
  rewrite !Z.pow_add_r in Hb by lia.
  split.
  - apply Z.div_le_lower_bound; lia.
  - apply Z.div_lt_upper_bound; lia.
Qed.

Lemma round_nearest_even_bounds (m : Z) (l : location) :
  m <= round_nearest_even m l <= m + 1.
Proof. destruct l as [| []]; cbn; try destruct (Z.even m); lia. Qed.

Lemma binary_round_aux_shape (mx ex : Z) (lx : location) :
  0 < mx -> 53 <= Zdigits2 mx -> -1074 <= ex ->
  let e1 := ex + (Zdigits2 mx - 53) in
  let r1 := fst (shr_fexp 53 1024 mx ex lx) in
  let m2 := round_nearest_even (shr_m r1) (loc_of_shr_record r1) in
  binary_round_aux 53 1024 false mx ex lx =
    if m2 <? 2 ^ 53 then fin_or_inf m2 e1 else fin_or_inf (2 ^ 52) (e1 + 1).
Proof.
  intros Hm Hd He e1 r1 m2.
  destruct (shr_fexp_shape mx ex lx Hm Hd He) as (Hs & Hr & _ & _).
  pose proof (shiftr_digits_bounds mx Hm Hd) as Hb.
  fold r1 in Hr. rewrite <- Hr in Hb.
  pose proof (round_nearest_even_bounds (shr_m r1) (loc_of_shr_record r1)) as Hrb.
  fold m2 in Hrb.
  unfold binary_round_aux.
  destruct (shr_fexp 53 1024 mx ex lx) as [mrs' e'] eqn:E1.
  cbn [fst snd] in *. subst r1. fold m2. subst e'. fold e1.
  assert (Hd2 : Zdigits2 m2 = 53 \/ m2 = 2 ^ 53).
  { destruct (Z.eq_dec m2 (2 ^ 53)) as [|Hne]; [right; assumption|left].
    apply Zdigits2_unique; lia. }
  destruct Hd2 as [Hd2 | Hd2].
  - destruct (shr_fexp_shape m2 e1 loc_Exact) as (Hs2 & Hr2 & _ & Hk2); try (unfold e1; lia).
    rewrite Hd2 in *. specialize (Hk2 eq_refl).
    destruct (shr_fexp 53 1024 m2 e1 loc_Exact) as [mrs'' e''] eqn:E2.
    cbn [fst snd] in *. subst mrs''. cbn [shr_m shr_record_of_loc].
    assert (Hlt : m2 < 2 ^ 53).
    { pose proof (Zdigits2_bounds m2 ltac:(lia)) as Hb2. rewrite Hd2 in Hb2. lia. }
    destruct (Z.ltb_spec m2 (2 ^ 53)); try lia.
    unfold fin_or_inf. replace e'' with e1 by lia.
    destruct m2 as [| p | p]; try lia. reflexivity.
  - destruct (shr_fexp_shape m2 e1 loc_Exact) as (Hs2 & Hr2 & _ & _);
      try (rewrite ?Hd2; cbn; unfold e1; lia).
    rewrite Hd2 in *. change (Zdigits2 (2 ^ 53)) with 54 in *.
    destruct (shr_fexp 53 1024 (2 ^ 53) e1 loc_Exact) as [mrs'' e''] eqn:E2.
    cbn [fst snd] in *. rewrite Hr2.
    destruct (Z.ltb_spec (2 ^ 53) (2 ^ 53)); try lia.
    unfold fin_or_inf. replace e'' with (e1 + 1) by lia. reflexivity.
Qed.

Lemma iter_xO_pow2 (p k : positive) :
  Zpos (Pos.iter xO p k) = Zpos p * 2 ^ Zpos k.
Proof.
  induction k as [| k IH] using Pos.peano_ind.
  - cbn. lia.
  - rewrite Pos.iter_succ, Pos2Z.inj_succ, Z.pow_succ_r by lia.
    rewrite Pos2Z.inj_xO, IH. lia.
Qed.

(** Integers below [2^53] are converted exactly. *)
Lemma binary_normalize_small (n : Z) :
  0 < n < 2 ^ 53 ->
  binary_normalize 53 1024 n 0 false =
  S754_finite false (Z.to_pos (n * 2 ^ (53 - Zdigits2 n))) (Zdigits2 n - 53).
Proof.
  intros Hn. destruct n as [| p | p]; try lia.
  pose proof (Zdigits2_bounds (Zpos p) ltac:(lia)) as Hb.
  pose proof (Zdigits2_pos (Zpos p) ltac:(lia)) as Hp.
  assert (Hd : Zdigits2 (Zpos p) <= 53).
  { destruct (Z.leb_spec (Zdigits2 (Zpos p)) 53); auto.
    assert (2 ^ 53 <= 2 ^ (Zdigits2 (Zpos p) - 1)) by (apply Z.pow_le_mono_r; lia). lia. }
  cbn [binary_normalize]. unfold binary_round.
  rewrite fexp_normal by (cbn [Zdigits2] in *; lia).
  unfold shl_align.
  change (Zpos (digits2_pos p)) with (Zdigits2 (Zpos p)).
  set (d := Zdigits2 (Zpos p)) in *.
  assert (Hval : forall mz : positive, Zpos mz = Zpos p * 2 ^ (53 - d) ->
            binary_round_aux 53 1024 false (Zpos mz) (d - 53) loc_Exact =
            S754_finite false mz (d - 53)).
  { intros mz Hmz.
    assert (Hdz : Zdigits2 (Zpos mz) = 53).
    { apply Zdigits2_unique; try lia. rewrite Hmz.
      replace (53 - 1) with ((d - 1) + (53 - d)) by lia.
      replace (2 ^ 53) with (2 ^ (d + (53 - d))) by (f_equal; lia).
      rewrite !Z.pow_add_r by lia.
      assert (0 < 2 ^ (53 - d)) by (apply Z.pow_pos_nonneg; lia).
      split.
      - apply Z.mul_le_mono_nonneg_r; lia.
      - apply Z.mul_lt_mono_pos_r; lia. }
    rewrite binary_round_aux_shape by lia.
    destruct (shr_fexp_shape (Zpos mz) (d - 53) loc_Exact) as (_ & _ & _ & Hk); try lia.
    rewrite Hdz in *. rewrite (Hk eq_refl). cbn [shr_record_of_loc shr_m loc_of_shr_record round_nearest_even].
    pose proof (Zdigits2_bounds (Zpos mz) ltac:(lia)) as Hbz. rewrite Hdz in Hbz.
    destruct (Z.ltb_spec (Zpos mz) (2 ^ 53)); try lia.
    unfold fin_or_inf. destruct (Z.leb_spec (d - 53 + (53 - 53)) 971); try lia.
    replace (d - 53 + (53 - 53)) with (d - 53) by lia. reflexivity. }
  destruct (d + 0 - 53 - 0) as [| k | k] eqn:Hk.
  - assert (Hd53 : d = 53) by lia.
    cbv beta iota.
    specialize (Hval p). rewrite Hd53 in Hval |- *. cbn in Hval |- *.
    rewrite Hval by lia. do 2 f_equal. lia.
  - lia.
  - rewrite Z.add_0_r.
    assert (Hmz : Zpos (Pos.iter xO p k) = Zpos p * 2 ^ (53 - d)).
    { rewrite iter_xO_pow2. f_equal. f_equal. lia. }
    rewrite (Hval _ Hmz). rewrite <- Hmz. reflexivity.
Qed.

(** Larger integers are rounded. *)
Lemma binary_normalize_large (n : Z) :
  2 ^ 53 <= n ->
  binary_normalize 53 1024 n 0 false = binary_round_aux 53 1024 false n 0 loc_Exact.
Proof.
  intros Hn. destruct n as [| p | p]; try lia.
  pose proof (Zdigits2_bounds (Zpos p) ltac:(lia)) as Hb.
  assert (Hd : 53 < Zdigits2 (Zpos p)).
  { destruct (Z.ltb_spec 53 (Zdigits2 (Zpos p))); auto.
    assert (2 ^ Zdigits2 (Zpos p) <= 2 ^ 53) by (apply Z.pow_le_mono_r; lia). lia. }
  cbn [binary_normalize]. unfold binary_round.
  rewrite fexp_normal by (cbn [Zdigits2] in *; lia).
  unfold shl_align. cbn [Zdigits2] in Hd.
  destruct (Zpos (digits2_pos p) + 0 - 53 - 0) eqn:Hk; try lia; reflexivity.
Qed.

Ltac stdz :=
  change IntDef.Z.div2 with Z.div2 in *;
  change IntDef.Z.min with Z.min in *;
  change IntDef.Z.max with Z.max in *;
  change IntDef.Z.shiftl with Z.shiftl in *;
  change IntDef.Z.sqrtrem with Z.sqrtrem in *.

Lemma binary_normalize_cases (n : Z) :
  0 < n ->
  binary_normalize 53 1024 n 0 false = S754_infinity false \/
  exists m e,
    binary_normalize 53 1024 n 0 false = S754_finite false m e /\
    2 ^ 52 <= Zpos m < 2 ^ 53 /\ Zdigits2 n - 53 <= e <= 971.
Proof.
  intros Hn.
  pose proof (Zdigits2_bounds n Hn) as Hb.
  pose proof (Zdigits2_pos n Hn) as Hp.
  destruct (Z.ltb_spec n (2 ^ 53)) as [Hlt | Hge].
  - right. rewrite binary_normalize_small by lia.
    assert (Hd : Zdigits2 n <= 53).
    { destruct (Z.leb_spec (Zdigits2 n) 53); auto.
      assert (2 ^ 53 <= 2 ^ (Zdigits2 n - 1)) by (apply Z.pow_le_mono_r; lia). lia. }
    set (d := Zdigits2 n) in *.
    assert (Hs : 2 ^ 52 <= n * 2 ^ (53 - d) < 2 ^ 53).
    { replace 52 with ((d - 1) + (53 - d)) by lia.
      replace (2 ^ 53) with (2 ^ (d + (53 - d))) by (f_equal; lia).
      rewrite !Z.pow_add_r by lia.
      assert (0 < 2 ^ (53 - d)) by (apply Z.pow_pos_nonneg; lia).
      split.
      - apply Z.mul_le_mono_nonneg_r; lia.
      - apply Z.mul_lt_mono_pos_r; lia. }
    eexists _, _. split; [reflexivity|].
    rewrite Z2Pos.id by lia. lia.
  - assert (Hd : 53 < Zdigits2 n).
    { destruct (Z.ltb_spec 53 (Zdigits2 n)); auto.
      assert (2 ^ Zdigits2 n <= 2 ^ 53) by (apply Z.pow_le_mono_r; lia). lia. }
    rewrite binary_normalize_large by lia.
    rewrite binary_round_aux_shape by lia.
    destruct (shr_fexp_shape n 0 loc_Exact) as (_ & Hr & _ & _); try lia.
    pose proof (shiftr_digits_bounds n Hn ltac:(lia)) as Hsb. rewrite <- Hr in Hsb.
    set (r1 := fst (shr_fexp 53 1024 n 0 loc_Exact)) in *.
    pose proof (round_nearest_even_bounds (shr_m r1) (loc_of_shr_record r1)) as Hrb.
    set (m2 := round_nearest_even (shr_m r1) (loc_of_shr_record r1)) in *.
    unfold fin_or_inf.
    destruct (Z.ltb_spec m2 (2 ^ 53)).
    + destruct (Z.leb_spec (0 + (Zdigits2 n - 53)) 971); [right | left; reflexivity].
      eexists _, _. split; [reflexivity|]. rewrite Z2Pos.id by lia. lia.
    + destruct (Z.leb_spec (0 + (Zdigits2 n - 53) + 1) 971); [right | left; reflexivity].
      eexists _, _. split; [reflexivity|]. rewrite Z2Pos.id by lia. lia.
Qed.

Lemma sqrt_bounds (a q r : Z) :
  2 ^ 104 <= a < 2 ^ 106 -> a = q * q + r -> 0 <= r <= 2 * q ->
  2 ^ 52 <= q < 2 ^ 53.
Proof.
  intros Ha Hq Hr.
  change (2 ^ 104) with (2 ^ 52 * 2 ^ 52) in Ha.
  change (2 ^ 106) with (2 ^ 53 * 2 ^ 53) in Ha.
  set (u := 2 ^ 52) in *. set (v := 2 ^ 53) in *.
  assert (0 < u) by (subst u; lia). assert (0 < v) by (subst v; lia).
  assert (0 <= q) by lia.
  split.
  - destruct (Z.leb_spec u q); auto.
    assert ((q + 1) * (q + 1) <= u * u) by (apply Z.mul_le_mono_nonneg; lia). lia.
  - destruct (Z.ltb_spec q v); auto.
    assert (v * v <= q * q) by (apply Z.mul_le_mono_nonneg; lia). lia.
Qed.

Lemma SFsqrt_finite (m : positive) (e : Z) :
  2 ^ 52 <= Zpos m < 2 ^ 53 -> -1074 <= e <= 971 ->
  exists q l,
    2 ^ 52 <= q < 2 ^ 53 /\
    SFsqrt 53 1024 (S754_finite false m e) =
    binary_round_aux 53 1024 false q (Z.div2 (54 + e) - 53) l.
Proof.
  intros Hm He. cbn [SFsqrt]. unfold SFsqrt_core_binary. stdz.
  assert (Hd : Zdigits2 (Zpos m) = 53) by (apply Zdigits2_unique; lia).
  rewrite Hd.
  replace (53 + e + 1) with (54 + e) by lia.
  assert (HA : (53 + e) <= 2 * Z.div2 (54 + e) <= 54 + e)
    by (rewrite Z.div2_div; Z.to_euclidean_division_equations; lia).
  assert (HE : e - 1 <= 2 * Z.div2 e <= e)
    by (rewrite Z.div2_div; Z.to_euclidean_division_equations; lia).
  rewrite fexp_normal by lia.
  set (A := Z.div2 (54 + e)) in *.
  replace (Z.min (A - 53) (Z.div2 e)) with (A - 53) by lia.
  set (s := e - 2 * (A - 53)).
  assert (Hs : s = 52 \/ s = 53) by (unfold s; lia).
  assert (Hsh : 2 ^ 104 <= Z.shiftl (Zpos m) s < 2 ^ 106).
  { rewrite Z.shiftl_mul_pow2 by lia. destruct Hs as [-> | ->]; lia. }
  replace (match s with 0 => Zpos m | Zpos _ => Z.shiftl (Zpos m) s | Zneg _ => 0 end)
    with (Z.shiftl (Zpos m) s) by (destruct Hs as [-> | ->]; reflexivity).
  pose proof (Z.sqrtrem_spec (Z.shiftl (Zpos m) s) ltac:(lia)) as Hsq.
  destruct (Z.sqrtrem (Z.shiftl (Zpos m) s)) as [q r].
  destruct Hsq as [Hq Hr].
  exists q. eexists. split; [|reflexivity].
  eapply sqrt_bounds; eauto.
Qed.

Lemma SFleb_48_false (m e : Z) :
  0 < m -> -47 < e -> SFleb (fin_or_inf m e) f48 = false.
Proof.
  intros Hm He. unfold fin_or_inf.
  destruct (e <=? 971); [|reflexivity].
  change f48 with (S754_finite false 6755399441055744 (-47)).
  unfold SFleb, SFcompare.
  destruct (Z.compare_spec e (-47)); [lia | lia | reflexivity].
Qed.

Lemma sqrt_above_48 (n : Z) :
  4096 <= n ->
  match binary_normalize 53 1024 n 0 false with
  | S754_finite false m e as v => SFleb (SFsqrt 53 1024 v) f48 = false
  | S754_infinity false => True
  | _ => False
  end.
Proof.
  intros Hn.
  assert (Hd : 13 <= Zdigits2 n).
  { pose proof (Zdigits2_bounds n ltac:(lia)) as Hb.
    destruct (Z.leb_spec 13 (Zdigits2 n)); auto.
    assert (2 ^ Zdigits2 n <= 2 ^ 12) by (apply Z.pow_le_mono_r; lia). lia. }
  destruct (binary_normalize_cases n ltac:(lia)) as [-> | (m & e & -> & Hm & He)]; [exact I|].
  destruct (SFsqrt_finite m e Hm ltac:(lia)) as (q & l & Hq & ->).
  assert (Hdq : Zdigits2 q = 53) by (apply Zdigits2_unique; lia).
  assert (HA : (53 + e) <= 2 * Z.div2 (54 + e))
    by (rewrite Z.div2_div; Z.to_euclidean_division_equations; lia).
  rewrite binary_round_aux_shape by lia.
  destruct (shr_fexp_shape q (Z.div2 (54 + e) - 53) l) as (_ & Hr & _ & _); try lia.
  rewrite Hdq in *. rewrite Z.shiftr_0_r in Hr.
  set (r1 := fst (shr_fexp 53 1024 q (Z.div2 (54 + e) - 53) l)) in *.
  pose proof (round_nearest_even_bounds (shr_m r1) (loc_of_shr_record r1)) as Hrb.
  destruct (_ <? _); apply SFleb_48_false; lia.
Qed.

Lemma round_nearest_even_r (r1 : shr_record) :
  (shr_r r1 = false ->
   round_nearest_even (shr_m r1) (loc_of_shr_record r1) = shr_m r1) /\
  (shr_r r1 = true -> Z.odd (shr_m r1) = true ->
   round_nearest_even (shr_m r1) (loc_of_shr_record r1) = shr_m r1 + 1).
Proof.
  destruct r1 as [m [] []]; cbn; split; intros; try discriminate; try reflexivity.
  rewrite <- Z.negb_odd. rewrite H0. reflexivity.
Qed.

Lemma digits_ge (n d : Z) : 0 < n -> 2 ^ (d - 1) <= n -> d <= Zdigits2 n.
Proof.
  intros Hn H. pose proof (Zdigits2_bounds n Hn) as Hb.
  destruct (Z.leb_spec d (Zdigits2 n)); auto.
  assert (2 ^ Zdigits2 n <= 2 ^ (d - 1)) by (apply Z.pow_le_mono_r; lia). lia.
Qed.

Lemma digits_le (n d : Z) : 0 < n -> n < 2 ^ d -> Zdigits2 n <= d.
Proof.
  intros Hn H. pose proof (Zdigits2_bounds n Hn) as Hb.
  pose proof (Zdigits2_pos n Hn).
  destruct (Z.leb_spec (Zdigits2 n) d); auto.
  assert (2 ^ d <= 2 ^ (Zdigits2 n - 1)) by (apply Z.pow_le_mono_r; lia). lia.
Qed.

Lemma binary_normalize_overflow (n : Z) :
  0 <= n ->
  (binary_normalize 53 1024 n 0 false = S754_infinity false <->
   overflow_threshold <= n).
Proof.
  intros Hn0. unfold overflow_threshold.
  destruct (Z.eq_dec n 0) as [-> | Hnz].
  { cbn [binary_normalize]. split; [discriminate | lia]. }
  assert (Hn : 0 < n) by lia.
  destruct (Z.ltb_spec n (2 ^ 53)) as [Hlt | Hge].
  { rewrite binary_normalize_small by lia. split; [discriminate | lia]. }
  pose proof (Zdigits2_bounds n Hn) as Hb.
  pose proof (digits_ge n 54 Hn ltac:(lia)) as Hd.
  rewrite binary_normalize_large by lia.
  rewrite binary_round_aux_shape by lia.
  destruct (shr_fexp_shape n 0 loc_Exact) as (_ & Hr & Hbit & _); try lia.
  pose proof (shiftr_digits_bounds n Hn ltac:(lia)) as Hsb. rewrite <- Hr in Hsb.
  set (r1 := fst (shr_fexp 53 1024 n 0 loc_Exact)) in *.
  pose proof (round_nearest_even_bounds (shr_m r1) (loc_of_shr_record r1)) as Hrb.
  destruct (round_nearest_even_r r1) as [Hrf Hrt].
  set (m2 := round_nearest_even (shr_m r1) (loc_of_shr_record r1)) in *.
  set (d := Zdigits2 n) in *.
  specialize (Hbit ltac:(lia)).
  (* the three ranges of the number of digits *)
  destruct (Z.lt_trichotomy d 1024) as [Hd1 | [Hd1 | Hd1]].
  - (* at most 1023 digits: always finite *)
    assert (n < 2 ^ 1023).
    { assert (2 ^ d <= 2 ^ 1023) by (apply Z.pow_le_mono_r; lia). lia. }
    unfold fin_or_inf.
    destruct (Z.ltb_spec m2 (2 ^ 53));
      [destruct (Z.leb_spec (0 + (d - 53)) 971) | destruct (Z.leb_spec (0 + (d - 53) + 1) 971)];
      try lia; (split; [discriminate | lia]).
  - (* exactly 1024 digits: the rounding decides *)
    rewrite Hd1 in *.
    replace (1024 - 53 - 1) with 970 in Hbit by lia.
    replace (1024 - 53) with 971 in Hr by lia.
    rewrite Z.shiftr_div_pow2 in Hr by lia.
    set (a := n / 2 ^ 970).
    assert (Ha : 2 ^ 970 * a <= n < 2 ^ 970 * (a + 1)).
    { unfold a. split.
      - apply Z.mul_div_le. lia.
      - replace (2 ^ 970 * (n / 2 ^ 970 + 1)) with (2 ^ 970 * Z.succ (n / 2 ^ 970)) by lia.
        apply Z.mul_succ_div_gt. lia. }
    assert (Ha2 : n / 2 ^ 971 = a / 2).
    { unfold a. rewrite Z.div_div by lia. reflexivity. }
    assert (Hbit' : shr_r r1 = Z.odd a).
    { rewrite Hbit. rewrite Z.testbit_odd, Z.shiftr_div_pow2 by lia. reflexivity. }
    rewrite Ha2 in Hr.
    assert (Hodd : a = 2 * (a / 2) + (if Z.odd a then 1 else 0)).
    { rewrite (Z.div2_odd a) at 1. rewrite Z.div2_div. destruct (Z.odd a); reflexivity. }
    unfold fin_or_inf.
    replace (0 + (1024 - 53) <=? 971) with true by reflexivity.
    replace (0 + (1024 - 53) + 1 <=? 971) with false by reflexivity.
    destruct (Z.ltb_spec m2 (2 ^ 53)) as [Hm2 | Hm2].
    + split; [discriminate|]. intros HT. exfalso.
      (* n >= T forces a = 2^54 - 1, hence rounding up to 2^53 *)
      assert (a = 2 ^ 54 - 1) by lia.
      assert (Z.odd a = true) by (subst a; rewrite H; reflexivity).
      rewrite H0 in *.
      assert (Hm1 : shr_m r1 = 2 ^ 53 - 1) by lia.
      rewrite Hrt in Hm2; auto; try lia.
      rewrite Hm1. reflexivity.
    + split; [intros _ | reflexivity].
      assert (Hm1 : shr_m r1 = 2 ^ 53 - 1) by lia.
      destruct (shr_r r1) eqn:Er.
      * rewrite <- Hbit' in Hodd. lia.
      * rewrite Hrf in Hm2 by reflexivity. lia.
  - (* at least 1025 digits: always infinite *)
    assert (2 ^ 1024 <= n).
    { assert (2 ^ 1024 <= 2 ^ (d - 1)) by (apply Z.pow_le_mono_r; lia). lia. }
    unfold fin_or_inf.
    destruct (Z.ltb_spec m2 (2 ^ 53));
      [destruct (Z.leb_spec (0 + (d - 53)) 971) | destruct (Z.leb_spec (0 + (d - 53) + 1) 971)];
      try lia; (split; [lia | reflexivity]).
Qed.

(** ** The head test of [make_pixel] *)

Lemma In_Zseq (n : nat) : forall i k : Z,
  i <= k < i + Z.of_nat n -> In k (Zseq i n).
Proof.
  induction n as [| n IH]; intros i k Hk.
  - lia.
  - cbn [Zseq]. destruct (Z.eq_dec i k) as [-> | Hne].
    + left. reflexivity.
    + right. apply IH. lia.
Qed.

(** Below [4096] the float computation is run on every integer. *)
Lemma head_test_small :
  forallb (fun n => match dist_of n with
                    | Ok d => Bool.eqb (F64.le_int d 48) (n <=? 2304)
                    | Raise _ => false
                    end) (Zseq 0 4096) = true.
Proof. vm_compute. reflexivity. Qed.

(** [dist <= 48] holds exactly when the squared distance is at most
    [48 * 48], and the conversion raises exactly from the threshold on. *)
Lemma dist_of_spec (n : Z) :
  0 <= n ->
  if n <? overflow_threshold
  then (exists d, dist_of n = Ok d /\ F64.le_int d 48 = (n <=? 2304))
  else dist_of n = Raise OverflowError.
Proof.
  intros Hn.
  destruct (Z.ltb_spec n 4096) as [Hsmall | Hbig].
  - assert (Hlt : (n <? overflow_threshold) = true).
    { apply Z.ltb_lt. unfold overflow_threshold. lia. }
    rewrite Hlt.
    pose proof head_test_small as Hall. rewrite forallb_forall in Hall.
    specialize (Hall n (In_Zseq 4096 0 n ltac:(lia))). cbv beta in Hall.
    destruct (dist_of n) as [d | e]; [|discriminate].
    exists d. split; [reflexivity|]. apply Bool.eqb_prop. exact Hall.
  - pose proof (sqrt_above_48 n Hbig) as Hsq.
    pose proof (binary_normalize_overflow n Hn) as Hov.
    unfold dist_of, F64.of_int, F64.le_int, F64.pow_half, F64.prec, F64.emax.
    fold f48.
    destruct (Z.ltb_spec n overflow_threshold) as [Hlt | Hge].
    + destruct (binary_normalize 53 1024 n 0 false) as [s | [] | | [] m e];
        try contradiction.
      * assert (overflow_threshold <= n) by (apply Hov; reflexivity). lia.
      * eexists. split; [reflexivity|]. rewrite Hsq. symmetry. apply Z.leb_gt. lia.
    + apply Hov in Hge. rewrite Hge. reflexivity.
Qed.

Lemma sq_dist_nonneg (x y : Z) : 0 <= sq_dist x y.
Proof.
  unfold sq_dist.
  pose proof (Z.square_nonneg (x - 64)). pose proof (Z.square_nonneg (y - 64)). lia.
Qed.

(** The test of the antenna ball never decides: a pixel of the ball that
    lies inside the head is the pixel (64, 16), which the stem takes. *)
Lemma antenna_ball_dead (x y : Z) :
  sq_dist x y <= 2304 ->
  (14 <=? y) && (y <=? 18) && ((62 <=? x) && (x <=? 66)) = false ->
  (if (y <? 18) && ((58 <=? x) && (x <=? 70))
   then (x - 64) * (x - 64) + (y - 10) * (y - 10) <=? 36
   else false) = false.
Proof.
  unfold sq_dist. intros Hhead Hstem.
  destruct ((y <? 18) && ((58 <=? x) && (x <=? 70))); [|reflexivity].
  apply Z.leb_gt.
  destruct (Z.ltb_spec 36 ((x - 64) * (x - 64) + (y - 10) * (y - 10))) as [|Hball];
    [assumption | exfalso].
  pose proof (Z.square_nonneg (x - 64)) as Hx.
  assert (Hy1 : 16 <= y) by nia.
  assert (Hy2 : y <= 16) by nia.
  assert (Hy : y = 16) by lia. subst y.
  assert (Hx64 : x = 64) by nia. subst x.
  discriminate Hstem.
Qed.

(** Inside the head, the nested tests of [make_pixel] choose [head_color]. *)
Lemma make_pixel_int_refines (x y : Z) :
  sq_dist x y < overflow_threshold -> make_pixel x y = Ok (make_pixel_int x y).
Proof.
  intros Hlt. unfold make_pixel. cbv zeta. fold (sq_dist x y).
  pose proof (dist_of_spec (sq_dist x y) (sq_dist_nonneg x y)) as Hd.
  apply Z.ltb_lt in Hlt. rewrite Hlt in Hd. destruct Hd as (d & -> & Hle).
  cbn [bind]. rewrite Hle. unfold make_pixel_int, head_color.
  change (48 * 48) with 2304.
  destruct (sq_dist x y <=? 2304) eqn:Hhead; [|reflexivity].
  apply Z.leb_le in Hhead.
  destruct ((43 <=? y) && (y <=? 55)); cbn [andb];
    [ destruct ((x - 48) * (x - 48) + (y - 48) * (y - 48) <=? 64); cbn [orb];
        [reflexivity|];
      destruct ((x - 80) * (x - 80) + (y - 48) * (y - 48) <=? 64); [reflexivity|]
    | ];
    (destruct ((68 <=? y) && (y <=? 72) && ((48 <=? x) && (x <=? 80)));
     [reflexivity|];
     destruct ((14 <=? y) && (y <=? 18) && ((62 <=? x) && (x <=? 66))) eqn:Hstem;
     [reflexivity|];
     rewrite (antenna_ball_dead x y Hhead Hstem); reflexivity).
Qed.

Lemma make_pixel_raises (x y : Z) :
  overflow_threshold <= sq_dist x y -> make_pixel x y = Raise OverflowError.
Proof.
  intros Hge. unfold make_pixel. cbv zeta. fold (sq_dist x y).
  pose proof (dist_of_spec (sq_dist x y) (sq_dist_nonneg x y)) as Hd.
  apply Z.ltb_ge in Hge. rewrite Hge in Hd. rewrite Hd. reflexivity.
Qed.

(** ** The colours of [make_pixel] *)

Lemma make_pixel_int_colors (x y : Z) :
  make_pixel_int x y = (0, 0, 0, 0) \/
  make_pixel_int x y = (255, 255, 255, 255) \/
  make_pixel_int x y = (100, 149, 237, 255) \/
  make_pixel_int x y = (65, 105, 225, 255).
Proof.
  unfold make_pixel_int, head_color.
  destruct (sq_dist x y <=? 48 * 48); [|tauto].
  repeat match goal with
         | |- context [if ?c then _ else _] => destruct c
         end; tauto.
Qed.

Lemma grid_sq_dist (x y : Z) :
  0 <= x < 128 -> 0 <= y < 128 -> sq_dist x y < overflow_threshold.
Proof.
  intros Hx Hy. unfold sq_dist, overflow_threshold.
  assert ((x - 64) * (x - 64) <= 4096) by nia.
  assert ((y - 64) * (y - 64) <= 4096) by nia.
  lia.
Qed.

(** ** The loops that build [raw] *)

Lemma for_from_flat_map (body : Z -> bytes -> result bytes) (f : Z -> bytes)
  (n : nat) : forall (i : Z) (s : bytes),
  (forall k acc, i <= k < i + Z.of_nat n -> body k acc = Ok (acc ++ f k)) ->
  for_from i n body s = Ok (s ++ flat_map f (Zseq i n)).
Proof.
  induction n as [| n IH]; intros i s Hbody.
  - cbn. rewrite app_nil_r. reflexivity.
  - cbn [for_from Zseq flat_map]. rewrite Hbody by lia. cbn [bind].
    rewrite IH by (intros; apply Hbody; lia).
    rewrite <- app_assoc. reflexivity.
Qed.

Lemma pack_pixel (x y : Z) (acc : bytes) :
  (let '(r, g, b, a) := make_pixel_int x y in
   p <- pack [fmt_B; fmt_B; fmt_B; fmt_B] [r; g; b; a] ;; Ok (acc ++ p))
  = Ok (acc ++ px_bytes y x).
Proof.
  unfold px_bytes.
  destruct (make_pixel_int_colors x y) as [-> | [-> | [-> | ->]]]; reflexivity.
Qed.

Lemma raw_buffer : raw = Ok buffer.
Proof.
  unfold raw, for_range, buffer.
  change (Z.to_nat height) with 128%nat. change (Z.to_nat width) with 128%nat.
  rewrite (for_from_flat_map _ scanline); [reflexivity|].
  intros y acc Hy. cbv zeta.
  rewrite (for_from_flat_map _ (px_bytes y)).
  - unfold scanline. rewrite <- app_assoc. reflexivity.
  - intros x acc' Hx.
    rewrite make_pixel_int_refines by (apply grid_sq_dist; lia).
    cbn [bind]. apply pack_pixel.
Qed.

(** ** Blocks of equal length *)

Lemma length_flat_map_uniform {A B : Type} (f : A -> list B) (L : nat) :
  (forall a, List.length (f a) = L) ->
  forall l, List.length (flat_map f l) = (List.length l * L)%nat.
Proof.
  intros Hf l. induction l as [| a l IH]; cbn [flat_map List.length].
  - reflexivity.
  - rewrite length_app, Hf, IH. lia.
Qed.

Lemma skipn_flat_map_uniform {A B : Type} (f : A -> list B) (L : nat) :
  (forall a, List.length (f a) = L) ->
  forall k l, skipn (k * L) (flat_map f l) = flat_map f (skipn k l).
Proof.
  intros Hf k. induction k as [| k IH]; intros l.
  - reflexivity.
  - destruct l as [| a l].
    + cbn [flat_map]. rewrite !skipn_nil. reflexivity.
    + cbn [flat_map skipn]. rewrite <- IH.
      rewrite skipn_app, Hf.
      rewrite skipn_all2 by (rewrite Hf; lia).
      cbn [app]. f_equal. lia.
Qed.

Lemma length_Zseq (n : nat) : forall i, List.length (Zseq i n) = n.
Proof. induction n as [| n IH]; intros i; cbn; [|rewrite IH]; reflexivity. Qed.

Lemma skipn_Zseq (k : nat) : forall (n : nat) (i : Z),
  (k <= n)%nat -> skipn k (Zseq i n) = Zseq (i + Z.of_nat k) (n - k).
Proof.
  induction k as [| k IH]; intros n i Hk.
  - cbn [skipn]. rewrite Z.add_0_r, Nat.sub_0_r. reflexivity.
  - destruct n as [| n]; [lia|]. cbn [Zseq skipn].
    rewrite IH by lia. f_equal. lia.
Qed.

Lemma length_px_bytes (y x : Z) : List.length (px_bytes y x) = 4%nat.
Proof. unfold px_bytes. destruct (make_pixel_int x y) as [[[r g] b] a]. reflexivity. Qed.

Lemma length_scanline (y : Z) : List.length (scanline y) = 513%nat.
Proof.
  unfold scanline. cbn [List.length].
  rewrite (length_flat_map_uniform _ 4 (length_px_bytes y)), length_Zseq. reflexivity.
Qed.

(** The buffer from row [y] on starts with the scanline of row [y]. *)
Lemma skipn_buffer_row (y : Z) :
  0 <= y < 128 ->
  exists rest, skipn (Z.to_nat (513 * y)) buffer = scanline y ++ rest.
Proof.
  intros Hy. unfold buffer.
  replace (Z.to_nat (513 * y)) with (Z.to_nat y * 513)%nat by lia.
  rewrite (skipn_flat_map_uniform _ 513 length_scanline).
  rewrite skipn_Zseq by lia.
  destruct (128 - Z.to_nat y)%nat as [| m] eqn:Hm; [lia|].
  cbn [Zseq flat_map]. rewrite Z.add_0_l, Z2Nat.id by lia.
  eexists. reflexivity.
Qed.

(** Inside a scanline, the pixel [x] starts at offset [1 + 4 * x]. *)
Lemma skipn_scanline_pixel (y x : Z) :
  0 <= x < 128 ->
  exists rest, skipn (Z.to_nat (1 + 4 * x)) (scanline y) = px_bytes y x ++ rest.
Proof.
  intros Hx. unfold scanline.
  replace (Z.to_nat (1 + 4 * x)) with (S (Z.to_nat x * 4)) by lia.
  cbn [skipn].
  rewrite (skipn_flat_map_uniform _ 4 (length_px_bytes y)).
  rewrite skipn_Zseq by lia.
  destruct (128 - Z.to_nat x)%nat as [| m] eqn:Hm; [lia|].
  cbn [Zseq flat_map]. rewrite Z.add_0_l, Z2Nat.id by lia.
  eexists. reflexivity.
Qed.

(** ** The CRC stays within 32 bits *)

Lemma log2_lt_32 (a : Z) : 0 <= a < 2 ^ 32 -> Z.log2 a < 32.
Proof.
  intros Ha. destruct (Z.eq_dec a 0) as [-> | Hne].
  - cbn. lia.
  - apply Z.log2_lt_pow2; lia.
Qed.

Lemma lxor_32 (a b : Z) :
  0 <= a < 2 ^ 32 -> 0 <= b < 2 ^ 32 -> 0 <= Z.lxor a b < 2 ^ 32.
Proof.
  intros Ha Hb.
  assert (Hn : 0 <= Z.lxor a b) by (apply Z.lxor_nonneg; lia).
  split; [assumption|].
  destruct (Z.eq_dec (Z.lxor a b) 0) as [-> | Hne]; [lia|].
  apply Z.log2_lt_pow2; [lia|].
  pose proof (Z.log2_lxor a b ltac:(lia) ltac:(lia)).
  pose proof (log2_lt_32 a Ha). pose proof (log2_lt_32 b Hb). lia.
Qed.

Lemma shiftr1_32 (c : Z) : 0 <= c < 2 ^ 32 -> 0 <= Z.shiftr c 1 < 2 ^ 32.
Proof.
  intros Hc. rewrite Z.shiftr_div_pow2 by lia. change (2 ^ 1) with 2.
  split.
  - apply Z.div_pos; lia.
  - apply Z.div_lt_upper_bound; lia.
Qed.

Lemma crc32_shift_32 (c : Z) : 0 <= c < 2 ^ 32 -> 0 <= crc32_shift c < 2 ^ 32.
Proof.
  intros Hc. unfold crc32_shift. pose proof (shiftr1_32 c Hc).
  destruct (Z.testbit c 0); [apply lxor_32|]; lia.
Qed.

Lemma Z_of_byte_range (b : byte) : 0 <= Z_of_byte b < 256.
Proof.
  unfold Z_of_byte. pose proof (Byte.to_N_bounded b). lia.
Qed.

Lemma crc32_update_32 (c : Z) (b : byte) :
  0 <= c < 2 ^ 32 -> 0 <= crc32_update c b < 2 ^ 32.
Proof.
  intros Hc. unfold crc32_update.
  assert (H0 : 0 <= Z.lxor c (Z_of_byte b) < 2 ^ 32).
  { apply lxor_32; [assumption|]. pose proof (Z_of_byte_range b). lia. }
  cbn [Nat.iter]. do 8 apply crc32_shift_32. exact H0.
Qed.

Lemma crc32_range (data : bytes) : 0 <= crc32 data < 2 ^ 32.
Proof.
  unfold crc32. apply lxor_32; [|lia].
  assert (H : forall c, 0 <= c < 2 ^ 32 ->
                        0 <= fold_left crc32_update data c < 2 ^ 32).
  { induction data as [| b data IH]; intros c Hc; cbn [fold_left].
    - assumption.
    - apply IH. apply crc32_update_32. assumption. }
  apply H. lia.
Qed.

(** ** Chunks *)

Lemma pack_I_ok (v : Z) : 0 <= v < 2 ^ 32 -> pack [fmt_I] [v] = Ok (be32 v).
Proof.
  intros Hv. cbn [pack pack_one].
  destruct (Z.leb_spec 0 v); [|lia].
  destruct (Z.leb_spec v 4294967295); [|lia].
  cbn [andb bind]. rewrite app_nil_r. reflexivity.
Qed.

Lemma pack_I_raises (v : Z) : 2 ^ 32 <= v -> pack [fmt_I] [v] = Raise StructError.
Proof.
  intros Hv. cbn [pack pack_one].
  destruct (Z.leb_spec v 4294967295); [lia|].
  rewrite andb_false_r. reflexivity.
Qed.

Lemma chunk_frame (ctype data : bytes) :
  Z.of_nat (List.length data) < 2 ^ 32 -> chunk ctype data = Ok (frame ctype data).
Proof.
  intros Hlen. unfold chunk, frame. cbv zeta.
  rewrite pack_I_ok by lia. cbn [bind].
  change 0xffffffff with (Z.ones 32). rewrite Z.land_ones by lia.
  rewrite Z.mod_small by apply crc32_range.
  rewrite pack_I_ok by apply crc32_range. cbn [bind].
  rewrite <- app_assoc. reflexivity.
Qed.

Lemma chunk_raises (ctype data : bytes) :
  2 ^ 32 <= Z.of_nat (List.length data) -> chunk ctype data = Raise StructError.
Proof.
  intros Hlen. unfold chunk. cbv zeta.
  rewrite pack_I_raises by assumption. reflexivity.
Qed.

(** ** Paths *)

Section Paths.

Local Open Scope string_scope.

Lemma append_assoc (a b c : string) : (a ++ b) ++ c = a ++ (b ++ c).
Proof. induction a as [| ch a IH]; cbn; [|rewrite IH]; reflexivity. Qed.

Lemma append_nonempty (a b : string) : b <> "" -> a ++ b <> "".
Proof. destruct a; cbn; [auto | discriminate]. Qed.

Lemma ends_with_sep_append (a b : string) :
  b <> "" -> ends_with_sep (a ++ b) = ends_with_sep b.
Proof.
  intros Hb. induction a as [| ch a IH]; [reflexivity|].
  cbn [append ends_with_sep]. rewrite IH.
  destruct (a ++ b) eqn:E; [|reflexivity].
  exfalso. apply (append_nonempty a b Hb). exact E.
Qed.

(** Joining a relative component that does not start with a separator. *)
Lemma join1_relative (p b : string) :
  starts_with_sep b = false -> b <> "" -> join1 p b = base_of p ++ b.
Proof.
  intros Hs Hb. unfold join1, base_of. rewrite Hs.
  destruct (String.eqb_spec p "") as [-> | _]; cbn [orb]; [reflexivity|].
  destruct (ends_with_sep p); [reflexivity|].
  rewrite append_assoc. reflexivity.
Qed.

Lemma base_of_append (a b : string) :
  b <> "" -> ends_with_sep b = false -> base_of (a ++ b) = a ++ b ++ "/".
Proof.
  intros Hb He. unfold base_of.
  destruct (String.eqb_spec (a ++ b) "") as [E | _].
  - exfalso. apply (append_nonempty a b Hb). exact E.
  - rewrite ends_with_sep_append, He by assumption. apply append_assoc.
Qed.

Lemma outpath_eq (file : string) :
  outpath file = base_of (dirname file) ++ "../media/icon.png".
Proof.
  unfold outpath, path_join. cbn [fold_left].
  rewrite (join1_relative _ "..") by (reflexivity || discriminate).
  rewrite (join1_relative _ "media") by (reflexivity || discriminate).
  rewrite (join1_relative _ "icon.png") by (reflexivity || discriminate).
  rewrite (base_of_append _ "..") by (reflexivity || discriminate).
  rewrite (base_of_append _ "media") by (reflexivity || discriminate).
  rewrite !append_assoc. reflexivity.
Qed.

(** [dirname] of a path that ends with a separator and a file name. *)
Lemma head_of_append (a b : string) :
  head_of b <> "" -> head_of (a ++ b) = a ++ head_of b.
Proof.
  intros Hb. induction a as [| ch a IH]; [reflexivity|].
  cbn [append head_of]. rewrite IH.
  destruct (Ascii.eqb ch sep); [reflexivity|].
  destruct (a ++ head_of b) eqn:E; [|reflexivity].
  exfalso. apply (append_nonempty a _ Hb). exact E.
Qed.

Lemma all_sep_ends (s : string) :
  all_sep s = true -> s = "" \/ ends_with_sep s = true.
Proof.
  induction s as [| ch s IH]; [left; reflexivity|].
  cbn [all_sep ends_with_sep]. intros H. apply andb_prop in H as [Hc Hs].
  right. destruct s as [| ch' s']; [exact Hc|].
  destruct (IH Hs) as [E | E]; [discriminate | exact E].
Qed.

Lemma all_sep_append (a b : string) : all_sep (a ++ b) = all_sep a && all_sep b.
Proof.
  induction a as [| ch a IH]; [reflexivity|].
  cbn [append all_sep]. rewrite IH, andb_assoc. reflexivity.
Qed.

Lemma rstrip_sep_id (s : string) : ends_with_sep s = false -> rstrip_sep s = s.
Proof.
  induction s as [| ch s IH]; [reflexivity|].
  cbn [ends_with_sep rstrip_sep]. destruct s as [| ch' s'].
  - intros ->. reflexivity.
  - intros H. rewrite (IH H). reflexivity.
Qed.

Lemma rstrip_sep_append_sep (s : string) : rstrip_sep (s ++ "/") = rstrip_sep s.
Proof.
  induction s as [| ch s IH]; [reflexivity|].
  cbn [append rstrip_sep]. rewrite IH. reflexivity.
Qed.

Lemma dirname_append (a name : string) :
  a <> "" -> ends_with_sep a = false -> head_of name = "" ->
  dirname (a ++ "/" ++ name) = a.
Proof.
  intros Ha He Hn. unfold dirname.
  assert (Hh : head_of (a ++ "/" ++ name) = a ++ "/").
  { rewrite head_of_append; cbn [append head_of]; rewrite Hn; cbn; [reflexivity|discriminate]. }
  rewrite Hh.
  destruct (String.eqb_spec (a ++ "/") "") as [E | _].
  { exfalso. apply (append_nonempty a "/"); [discriminate | exact E]. }
  assert (Hall : all_sep (a ++ "/") = false).
  { rewrite all_sep_append. destruct (all_sep a) eqn:Ea; [|reflexivity].
    destruct (all_sep_ends a Ea) as [E | E]; [contradiction | congruence]. }
  rewrite Hall. cbn [negb andb].
  rewrite rstrip_sep_append_sep. apply rstrip_sep_id. exact He.
Qed.

Lemma dirname_outpath (file : string) :
  dirname (outpath file) = base_of (dirname file) ++ "../media".
Proof.
  rewrite outpath_eq.
  change "../media/icon.png" with ("../media" ++ "/" ++ "icon.png").
  rewrite <- append_assoc.
  apply dirname_append.
  - apply append_nonempty. discriminate.
  - rewrite ends_with_sep_append by discriminate. reflexivity.
  - reflexivity.
Qed.

End Paths.

(** ** The stream *)

Lemma ihdr_eq : ihdr = Ok ihdr_bytes.
Proof. vm_compute. reflexivity. Qed.

Lemma length_buffer : Z.of_nat (List.length buffer) = 65664.
Proof.
  unfold buffer.
  rewrite (length_flat_map_uniform _ 513 length_scanline), length_Zseq. reflexivity.
Qed.

Lemma png_eq (zlib_compress : bytes -> Z -> result bytes) (payload : bytes) :
  zlib_compress buffer 9 = Ok payload ->
  Z.of_nat (List.length payload) < 2 ^ 32 ->
  png zlib_compress =
  Ok (sig ++ frame IHDR ihdr_bytes ++ frame IDAT payload ++ frame IEND []).
Proof.
  intros Hz Hlen. unfold png, idat.
  rewrite raw_buffer, ihdr_eq. cbn [bind]. rewrite Hz. cbn [bind].
  rewrite !chunk_frame by (assumption || (cbn; lia)).
  reflexivity.
Qed.

Lemma Ok_inj {A : Type} (a b : A) : Ok a = Ok b -> a = b.
Proof. intros H. injection H as H. exact H. Qed.

(** Whatever the compressor answers, a stream that is produced starts with
    the signature and the header chunk and ends with the end chunk. *)
Lemma png_shape (zlib_compress : bytes -> Z -> result bytes) (p : bytes) :
  png zlib_compress = Ok p ->
  exists middle, p = sig ++ frame IHDR ihdr_bytes ++ middle ++ frame IEND [].
Proof.
  unfold png, idat. rewrite raw_buffer, ihdr_eq. cbn [bind].
  destruct (zlib_compress buffer 9) as [payload | e]; cbn [bind]; [|discriminate].
  rewrite (chunk_frame IHDR) by (cbn; lia). cbn [bind].
  destruct (chunk IDAT payload) as [c2 | e]; cbn [bind]; [|discriminate].
  rewrite (chunk_frame IEND) by (cbn; lia). cbn [bind].
  intros H. apply Ok_inj in H. exists c2. symmetry. exact H.
Qed.

Lemma skipn_app_tail {A : Type} (a b : list A) :
  skipn (List.length (a ++ b) - List.length b) (a ++ b) = b.
Proof.
  rewrite length_app. replace (List.length a + List.length b - List.length b)%nat
    with (List.length a) by lia.
  rewrite skipn_app, skipn_all, Nat.sub_diag. reflexivity.
Qed.

Lemma byte_of_Z_of_byte (v : Z) : 0 <= v <= 255 -> Z_of_byte (byte_of_Z v) = v.
Proof.
  intros Hv. unfold Z_of_byte, byte_of_Z.
  rewrite Z.mod_small by lia.
  destruct (Byte.of_N (Z.to_N v)) as [b |] eqn:E.
  - apply Byte.to_of_N in E. rewrite E. lia.
  - apply Byte.of_N_None_iff in E. lia.
Qed.

(** ** Offsets into the buffer *)

Lemma nth_skipn_hd {A : Type} (d : A) (k : nat) : forall l : list A,
  nth k l d = hd d (skipn k l).
Proof.
  induction k as [| k IH]; intros [| a l]; cbn; try reflexivity. apply IH.
Qed.

Lemma buffer_filter_byte (y : Z) :
  0 <= y < 128 -> nth (Z.to_nat (513 * y)) buffer xff = x00.
Proof.
  intros Hy. rewrite nth_skipn_hd.
  destruct (skipn_buffer_row y Hy) as (rest & ->). reflexivity.
Qed.

Lemma buffer_pixel (x y : Z) :
  0 <= x < 128 -> 0 <= y < 128 ->
  firstn 4 (skipn (Z.to_nat (513 * y + 1 + 4 * x)) buffer) = px_bytes y x.
Proof.
  intros Hx Hy.
  replace (Z.to_nat (513 * y + 1 + 4 * x))
    with (Z.to_nat (1 + 4 * x) + Z.to_nat (513 * y))%nat by lia.
  rewrite <- skipn_skipn.
  destruct (skipn_buffer_row y Hy) as (rest & ->).
  rewrite skipn_app, length_scanline.
  replace (Z.to_nat (1 + 4 * x) - 513)%nat with 0%nat by lia.
  destruct (skipn_scanline_pixel y x Hx) as (rest' & ->).
  cbn [skipn]. rewrite <- app_assoc.
  rewrite firstn_app, length_px_bytes.
  rewrite firstn_all2 by (rewrite length_px_bytes; lia).
  change (4 - 4)%nat with 0%nat. rewrite firstn_O. apply app_nil_r.
Qed.

(** The four bytes of a pixel hold the four numbers of its colour. *)
Lemma px_bytes_values (x y : Z) :
  map Z_of_byte (px_bytes y x) =
  let '(r, g, b, a) := make_pixel_int x y in [r; g; b; a].
Proof.
  unfold px_bytes.
  destruct (make_pixel_int_colors x y) as [-> | [-> | [-> | ->]]]; reflexivity.
Qed.

(** ** Big-endian words *)

Lemma length_be32 (v : Z) : List.length (be32 v) = 4%nat.
Proof. reflexivity. Qed.

Lemma be32_decodes (v : Z) : 0 <= v < 2 ^ 32 -> be_to_Z (be32 v) = v.
Proof.
  intros Hv. unfold be32, be_to_Z. cbn [map fold_left].
  change 255 with (Z.ones 8). rewrite !Z.land_ones by lia.
  rewrite !Z.shiftr_div_pow2 by lia.
  rewrite !byte_of_Z_of_byte
    by (match goal with |- 0 <= ?a mod ?b <= _ =>
          pose proof (Z.mod_pos_bound a b ltac:(lia)); lia end).
  change (2 ^ 24) with 16777216. change (2 ^ 16) with 65536.
  change (2 ^ 8) with 256. change (2 ^ 0) with 1. change (2 ^ 32) with 4294967296 in Hv.
  Z.to_euclidean_division_equations. lia.
Qed.

(** * The claims *)

Local Open Scope string_scope.

(** C1. The centre (64, 10) of the antenna ball lies 54 pixels above the
    centre of the head, outside the circle of radius 48, so [make_pixel]
    answers the transparent pixel and not the antenna colour there; the
    pixel (0, 0) is transparent. *)
Theorem antenna_ball_center_is_transparent :
  sq_dist 64 10 = 54 * 54 /\
  make_pixel 64 10 = Ok (0, 0, 0, 0) /\
  make_pixel 64 10 <> Ok (100, 149, 237, 255) /\
  make_pixel 0 0 = Ok (0, 0, 0, 0).
Proof.
  assert (H : make_pixel 64 10 = Ok (0, 0, 0, 0)) by (vm_compute; reflexivity).
  split; [reflexivity|]. split; [exact H|]. split.
  - rewrite H. discriminate.
  - vm_compute. reflexivity.
Qed.

(** C2, as stated, fails: for a script at [/repo/scripts/create_icon.py]
    the output path is [/repo/scripts/../media/icon.png], which denotes
    [/repo/media/icon.png] and not [media/icon.png] under the directory of
    the script. *)
Lemma outpath_beside_script_dir_fails :
  outpath "/repo/scripts/create_icon.py" = "/repo/scripts/../media/icon.png" /\
  resolve (outpath "/repo/scripts/create_icon.py") = ["repo"; "media"; "icon.png"] /\
  resolve (path_join (dirname "/repo/scripts/create_icon.py") ["media"; "icon.png"])
    = ["repo"; "scripts"; "media"; "icon.png"] /\
  resolve (outpath "/repo/scripts/create_icon.py")
    <> resolve (path_join (dirname "/repo/scripts/create_icon.py") ["media"; "icon.png"]).
Proof.
  split; [reflexivity|]. split; [reflexivity|]. split; [reflexivity|].
  vm_compute. discriminate.
Qed.

(** C2, amended. The output path is [../media/icon.png] relative to the
    directory of the script, that is [media/icon.png] under the parent of
    that directory; once the stream is computed the script calls
    [makedirs] with [exist_ok] on the directory of that path, then writes
    the stream to the path, then prints, in this order. *)
Theorem outpath_above_script_dir
  (zlib_compress : bytes -> Z -> result bytes) (file : string) :
  outpath file = base_of (dirname file) ++ "../media/icon.png" /\
  dirname (outpath file) = base_of (dirname file) ++ "../media" /\
  script zlib_compress file =
    fmap (fun p => [ Makedirs (base_of (dirname file) ++ "../media") true;
                     WriteFile (base_of (dirname file) ++ "../media/icon.png") p;
                     Print ("Created icon.png: "
                            ++ decimal (Z.of_nat (List.length p)) ++ " bytes") ])
         (png zlib_compress).
Proof.
  split; [apply outpath_eq|]. split; [apply dirname_outpath|].
  unfold script. rewrite dirname_outpath, outpath_eq.
  destruct (png zlib_compress); reflexivity.
Qed.

Local Close Scope string_scope.

(** C3, as stated, fails: the pixel at [x = 2^512], far outside the head,
    makes the conversion of the squared distance to a float overflow, and
    [make_pixel] raises instead of answering a transparent pixel. *)
Lemma outside_head_far_raises :
  48 * 48 < sq_dist (2 ^ 512) 0 /\
  make_pixel (2 ^ 512) 0 = Raise OverflowError /\
  make_pixel (2 ^ 512) 0 <> Ok (0, 0, 0, 0).
Proof.
  assert (H : make_pixel (2 ^ 512) 0 = Raise OverflowError)
    by (apply make_pixel_raises; vm_compute; discriminate).
  split; [vm_compute; reflexivity|]. split; [exact H|].
  rewrite H. discriminate.
Qed.

(** C3, amended. For every integer coordinate pair outside the circle of
    radius 48 around (64, 64) whose squared distance is below
    [2^1024 - 2^970], so that it converts to a float, [make_pixel] answers
    the fully transparent pixel (0, 0, 0, 0). *)
Theorem outside_head_transparent (x y : Z) :
  48 * 48 < sq_dist x y ->
  sq_dist x y < overflow_threshold ->
  make_pixel x y = Ok (0, 0, 0, 0).
Proof.
  intros Hout Hlt. rewrite make_pixel_int_refines by assumption.
  unfold make_pixel_int. destruct (Z.leb_spec (sq_dist x y) (48 * 48)); [lia|].
  reflexivity.
Qed.

Lemma outside_head_transparent_witness :
  48 * 48 < sq_dist 0 0 /\ sq_dist 0 0 < overflow_threshold /\
  make_pixel 0 0 = Ok (0, 0, 0, 0).
Proof.
  assert (H1 : 48 * 48 < sq_dist 0 0) by (vm_compute; reflexivity).
  assert (H2 : sq_dist 0 0 < overflow_threshold) by (vm_compute; reflexivity).
  exact (conj H1 (conj H2 (outside_head_transparent 0 0 H1 H2))).
Defined.

(** C4, as stated, fails: the length of a payload of [2^32] bytes has no
    encoding on four bytes, [struct.pack] refuses it, and [chunk] raises
    instead of answering the framed block. *)
Lemma chunk_oversized_payload_raises :
  chunk IEND (repeat x00 (Z.to_nat (2 ^ 32))) = Raise StructError /\
  chunk IEND (repeat x00 (Z.to_nat (2 ^ 32)))
    <> Ok (frame IEND (repeat x00 (Z.to_nat (2 ^ 32)))).
Proof.
  assert (H : chunk IEND (repeat x00 (Z.to_nat (2 ^ 32))) = Raise StructError).
  { apply chunk_raises. rewrite repeat_length, Z2Nat.id; lia. }
  split; [exact H|]. rewrite H. discriminate.
Qed.

(** C4, amended. For every type tag and every payload shorter than [2^32]
    bytes, [chunk] answers the concatenation of the big-endian encoding on
    four bytes of the payload length, the type tag, the payload, and the
    big-endian encoding on four bytes of the CRC-32 of the tag followed by
    the payload. *)
Theorem chunk_framing (ctype data : bytes) :
  Z.of_nat (List.length data) < 2 ^ 32 ->
  chunk ctype data =
    Ok (be32 (Z.of_nat (List.length data)) ++ ctype ++ data
        ++ be32 (crc32 (ctype ++ data))) /\
  List.length (be32 (Z.of_nat (List.length data))) = 4%nat /\
  be_to_Z (be32 (Z.of_nat (List.length data))) = Z.of_nat (List.length data) /\
  List.length (be32 (crc32 (ctype ++ data))) = 4%nat /\
  be_to_Z (be32 (crc32 (ctype ++ data))) = crc32 (ctype ++ data).
Proof.
  intros Hlen.
  split; [apply chunk_frame; assumption|].
  split; [apply length_be32|].
  split; [apply be32_decodes; lia|].
  split; [apply length_be32|].
  apply be32_decodes. apply crc32_range.
Qed.

Lemma chunk_framing_witness :
  chunk IHDR ihdr_bytes =
    Ok (be32 (Z.of_nat (List.length ihdr_bytes)) ++ IHDR ++ ihdr_bytes
        ++ be32 (crc32 (IHDR ++ ihdr_bytes))).
Proof.
  assert (H : Z.of_nat (List.length ihdr_bytes) < 2 ^ 32) by (vm_compute; reflexivity).
  exact (proj1 (chunk_framing IHDR ihdr_bytes H)).
Defined.

(** C5. When [zlib.compress] answers a payload (shorter than [2^32] bytes)
    for the raw buffer at level 9, the stream is the signature of eight
    bytes followed by the chunks IHDR, IDAT and IEND in this order, the
    payload of IDAT being that answer; the stream starts with the
    signature. *)
Theorem png_stream_layout
  (zlib_compress : bytes -> Z -> result bytes) (payload : bytes) :
  zlib_compress buffer 9 = Ok payload ->
  Z.of_nat (List.length payload) < 2 ^ 32 ->
  raw = Ok buffer /\
  idat zlib_compress buffer = Ok payload /\
  chunk IHDR ihdr_bytes = Ok (frame IHDR ihdr_bytes) /\
  chunk IDAT payload = Ok (frame IDAT payload) /\
  chunk IEND [] = Ok (frame IEND []) /\
  png zlib_compress =
    Ok (sig ++ frame IHDR ihdr_bytes ++ frame IDAT payload ++ frame IEND []) /\
  firstn 8 (sig ++ frame IHDR ihdr_bytes ++ frame IDAT payload ++ frame IEND [])
    = [x89; x50; x4e; x47; x0d; x0a; x1a; x0a].
Proof.
  intros Hz Hlen.
  split; [apply raw_buffer|]. split; [exact Hz|].
  split; [apply chunk_frame; cbn; lia|].
  split; [apply chunk_frame; assumption|].
  split; [apply chunk_frame; cbn; lia|].
  split; [apply png_eq; assumption|].
  reflexivity.
Qed.

Lemma png_stream_layout_witness :
  png (fun data _ => Ok data) =
    Ok (sig ++ frame IHDR ihdr_bytes ++ frame IDAT buffer ++ frame IEND []).
Proof.
  assert (H1 : (fun (data : bytes) (_ : Z) => Ok data) buffer 9 = Ok buffer)
    by reflexivity.
  assert (H2 : Z.of_nat (List.length buffer) < 2 ^ 32) by (vm_compute; reflexivity).
  exact (proj1 (proj2 (proj2 (proj2 (proj2 (proj2
           (png_stream_layout (fun data _ => Ok data) buffer H1 H2))))))).
Defined.

(** C6. The payload of IHDR is the 13 bytes that encode, big-endian, the
    width 128, the height 128, the bit depth 8, the colour type 6 and the
    compression, filter and interlace methods 0; a reader of the header of
    any stream the script produces sees these seven values. *)
Theorem ihdr_payload_fields :
  ihdr = Ok [x00; x00; x00; x80; x00; x00; x00; x80; x08; x06; x00; x00; x00] /\
  be_to_Z [x00; x00; x00; x80] = width /\
  be_to_Z [x00; x00; x00; x80] = height /\
  forall zlib_compress : bytes -> Z -> result bytes,
    match png zlib_compress with
    | Ok p =>
        read_header p =
          Some {| h_width := 128; h_height := 128; h_depth := 8; h_color := 6;
                  h_compression := 0; h_filter := 0; h_interlace := 0 |}
    | Raise _ => True
    end.
Proof.
  split; [exact ihdr_eq|]. split; [reflexivity|]. split; [reflexivity|].
  intros zc. destruct (png zc) as [p | e] eqn:E; [|exact I].
  apply png_shape in E as (middle & ->).
  vm_compute. reflexivity.
Qed.

(** C7. The IEND chunk has an empty payload: its length field is four
    zero bytes, and its CRC is the CRC-32 of the four bytes of its tag,
    [0xAE426082], whatever the image; every stream the script produces
    ends with these twelve bytes. *)
Theorem iend_chunk_fixed :
  chunk IEND [] =
    Ok [x00; x00; x00; x00; x49; x45; x4e; x44; xae; x42; x60; x82] /\
  crc32 (IEND ++ []) = 0xAE426082 /\
  be32 0xAE426082 = [xae; x42; x60; x82] /\
  forall zlib_compress : bytes -> Z -> result bytes,
    match png zlib_compress with
    | Ok p =>
        skipn (List.length p - 12) p =
          [x00; x00; x00; x00; x49; x45; x4e; x44; xae; x42; x60; x82]
    | Raise _ => True
    end.
Proof.
  split; [vm_compute; reflexivity|]. split; [vm_compute; reflexivity|].
  split; [vm_compute; reflexivity|].
  intros zc. destruct (png zc) as [p | e] eqn:E; [|exact I].
  apply png_shape in E as (middle & ->).
  rewrite !app_assoc.
  change 12%nat with (List.length (frame IEND [])).
  rewrite skipn_app_tail. vm_compute. reflexivity.
Qed.

(** C8. The raw buffer holds 128 rows, row 0 first, of 513 bytes each:
    65664 bytes in all; the byte at offset [513 * y] is the filter byte 0
    of row [y], and the four bytes at offset [513 * y + 1 + 4 * x] are the
    red, green, blue and alpha values of [make_pixel x y]. *)
Theorem raw_scanline_layout :
  raw = Ok buffer /\
  buffer = flat_map (fun y => x00 :: flat_map (px_bytes y) (Zseq 0 128)) (Zseq 0 128) /\
  Z.of_nat (List.length buffer) = 128 * (1 + 128 * 4) /\
  Z.of_nat (List.length buffer) = 65664 /\
  (forall y, 0 <= y < 128 -> nth (Z.to_nat (513 * y)) buffer xff = x00) /\
  (forall x y, 0 <= x < 128 -> 0 <= y < 128 ->
     exists r g b a,
       make_pixel x y = Ok (r, g, b, a) /\
       map Z_of_byte (firstn 4 (skipn (Z.to_nat (513 * y + 1 + 4 * x)) buffer))
         = [r; g; b; a]).
Proof.
  split; [exact raw_buffer|]. split; [reflexivity|].
  split; [exact length_buffer|]. split; [exact length_buffer|].
  split; [exact buffer_filter_byte|].
  intros x y Hx Hy.
  rewrite (buffer_pixel x y Hx Hy), px_bytes_values.
  rewrite (make_pixel_int_refines x y (grid_sq_dist x y Hx Hy)).
  destruct (make_pixel_int x y) as [[[r g] b] a].
  exists r, g, b, a. split; reflexivity.
Qed.

(** C10, as stated, fails: far from the image the conversion of the
    squared distance to a float overflows and [make_pixel] raises
    [OverflowError] instead of answering a colour. *)
Lemma make_pixel_far_raises :
  make_pixel 3 (- 2 ^ 520) = Raise OverflowError /\
  make_pixel 3 (- 2 ^ 520) <> Ok (0, 0, 0, 0) /\
  make_pixel 3 (- 2 ^ 520) <> Ok (255, 255, 255, 255) /\
  make_pixel 3 (- 2 ^ 520) <> Ok (100, 149, 237, 255) /\
  make_pixel 3 (- 2 ^ 520) <> Ok (65, 105, 225, 255).
Proof.
  assert (H : make_pixel 3 (- 2 ^ 520) = Raise OverflowError)
    by (apply make_pixel_raises; vm_compute; discriminate).
  split; [exact H|]. rewrite H.
  split; [discriminate|]. split; [discriminate|]. split; discriminate.
Qed.

(** C10, amended. For every integer coordinate pair whose squared distance
    to (64, 64) is below [2^1024 - 2^970] (every pixel of the image is),
    [make_pixel] returns, without error, one of the four tuples
    (0, 0, 0, 0), (255, 255, 255, 255), (100, 149, 237, 255) and
    (65, 105, 225, 255): the alpha value is 0 or 255. *)
Theorem make_pixel_four_colors (x y : Z) :
  sq_dist x y < overflow_threshold ->
  (make_pixel x y = Ok (0, 0, 0, 0) \/
   make_pixel x y = Ok (255, 255, 255, 255) \/
   make_pixel x y = Ok (100, 149, 237, 255) \/
   make_pixel x y = Ok (65, 105, 225, 255)) /\
  exists r g b a,
    make_pixel x y = Ok (r, g, b, a) /\ (a = 0 \/ a = 255).
Proof.
  intros Hlt. rewrite (make_pixel_int_refines x y Hlt).
  destruct (make_pixel_int_colors x y) as [-> | [-> | [-> | ->]]].
  - split; [tauto|]. exists 0, 0, 0, 0. split; [reflexivity | tauto].
  - split; [tauto|]. exists 255, 255, 255, 255. split; [reflexivity | tauto].
  - split; [tauto|]. exists 100, 149, 237, 255. split; [reflexivity | tauto].
  - split; [tauto|]. exists 65, 105, 225, 255. split; [reflexivity | tauto].
Qed.

Lemma make_pixel_four_colors_witness :
  sq_dist 64 64 < overflow_threshold /\
  (make_pixel 64 64 = Ok (0, 0, 0, 0) \/
   make_pixel 64 64 = Ok (255, 255, 255, 255) \/
   make_pixel 64 64 = Ok (100, 149, 237, 255) \/
   make_pixel 64 64 = Ok (65, 105, 225, 255)).
Proof.
  assert (H : sq_dist 64 64 < overflow_threshold) by (vm_compute; reflexivity).
  exact (conj H (proj1 (make_pixel_four_colors 64 64 H))).
Defined.

(** Each of the four colours is the colour of some pixel of the image. *)
Lemma four_colors_attained :
  make_pixel 0 0 = Ok (0, 0, 0, 0) /\
  make_pixel 48 48 = Ok (255, 255, 255, 255) /\
  make_pixel 64 16 = Ok (100, 149, 237, 255) /\
  make_pixel 64 64 = Ok (65, 105, 225, 255).
Proof.
  split; [vm_compute; reflexivity|]. split; [vm_compute; reflexivity|].
  split; vm_compute; reflexivity.
Qed.

(** On the whole image the float test agrees with the integer test. *)
Lemma make_pixel_on_grid (x y : Z) :
  0 <= x < 128 -> 0 <= y < 128 -> make_pixel x y = Ok (make_pixel_int x y).
Proof.
  intros Hx Hy. apply make_pixel_int_refines. apply grid_sq_dist; assumption.
Qed.

(** * Further properties of the pixel generator *)

(** X2. [make_pixel] raises nothing but [OverflowError], and raises it
    exactly when the squared distance to the centre reaches
    [2^1024 - 2^970]; on the 128 x 128 image it never raises. *)
Theorem make_pixel_errors (x y : Z) :
  (make_pixel x y = Raise OverflowError <-> overflow_threshold <= sq_dist x y) /\
  (forall e, make_pixel x y = Raise e -> e = OverflowError) /\
  (0 <= x < 128 -> 0 <= y < 128 -> exists c, make_pixel x y = Ok c).
Proof.
  destruct (Z.ltb_spec (sq_dist x y) overflow_threshold) as [Hlt | Hge].
  - rewrite (make_pixel_int_refines x y Hlt). split; [|split].
    + split; [discriminate | lia].
    + intros e He. discriminate He.
    + intros _ _. eexists. reflexivity.
  - rewrite (make_pixel_raises x y Hge). split; [|split].
    + split; [intros _; exact Hge | reflexivity].
    + intros e He. injection He as <-. reflexivity.
    + intros Hx Hy. pose proof (grid_sq_dist x y Hx Hy). lia.
Qed.

Lemma head_color_mirror (x y : Z) : head_color (128 - x) y = head_color x y.
Proof.
  unfold head_color.
  replace ((128 - x - 48) * (128 - x - 48)) with ((x - 80) * (x - 80)) by ring.
  replace ((128 - x - 80) * (128 - x - 80)) with ((x - 48) * (x - 48)) by ring.
  rewrite (orb_comm ((x - 80) * (x - 80) + (y - 48) * (y - 48) <=? 64)).
  assert (Hm : (48 <=? 128 - x) && (128 - x <=? 80) = (48 <=? x) && (x <=? 80)).
  { destruct (Z.leb_spec 48 (128 - x)), (Z.leb_spec (128 - x) 80),
      (Z.leb_spec 48 x), (Z.leb_spec x 80); cbn; reflexivity || lia. }
  assert (Hs : (62 <=? 128 - x) && (128 - x <=? 66) = (62 <=? x) && (x <=? 66)).
  { destruct (Z.leb_spec 62 (128 - x)), (Z.leb_spec (128 - x) 66),
      (Z.leb_spec 62 x), (Z.leb_spec x 66); cbn; reflexivity || lia. }
  rewrite Hm, Hs. reflexivity.
Qed.

Lemma sq_dist_mirror (x y : Z) : sq_dist (128 - x) y = sq_dist x y.
Proof. unfold sq_dist. ring. Qed.

(** X3. The drawing is symmetric about the vertical line [x = 64]:
    [make_pixel] answers the same at [128 - x] and at [x], colour or
    exception, for every integer pair. *)
Theorem make_pixel_mirror (x y : Z) : make_pixel (128 - x) y = make_pixel x y.
Proof.
  destruct (Z.ltb_spec (sq_dist x y) overflow_threshold) as [Hlt | Hge].
  - rewrite (make_pixel_int_refines x y Hlt).
    rewrite make_pixel_int_refines by (rewrite sq_dist_mirror; exact Hlt).
    unfold make_pixel_int. rewrite sq_dist_mirror, head_color_mirror. reflexivity.
  - rewrite (make_pixel_raises x y Hge).
    apply make_pixel_raises. rewrite sq_dist_mirror. exact Hge.
Qed.

Lemma head_color_opaque (x y : Z) :
  exists r g b, head_color x y = (r, g, b, 255).
Proof.
  unfold head_color.
  repeat match goal with
         | |- context [if ?c then _ else _] => destruct c
         end; eexists _, _, _; reflexivity.
Qed.

(** X4. A pixel is fully transparent exactly when it lies outside the
    circle of radius 48 (and its squared distance converts to a float);
    every pixel inside the circle, boundary included, is opaque. *)
Theorem transparent_iff_outside_head (x y : Z) :
  (make_pixel x y = Ok (0, 0, 0, 0)
   <-> 48 * 48 < sq_dist x y /\ sq_dist x y < overflow_threshold) /\
  (sq_dist x y <= 48 * 48 -> exists r g b, make_pixel x y = Ok (r, g, b, 255)).
Proof.
  assert (Hin : sq_dist x y <= 48 * 48 ->
                exists r g b, make_pixel x y = Ok (r, g, b, 255)).
  { intros Hhead.
    rewrite make_pixel_int_refines by (unfold overflow_threshold; lia).
    unfold make_pixel_int. destruct (Z.leb_spec (sq_dist x y) (48 * 48)); [|lia].
    destruct (head_color_opaque x y) as (r & g & b & ->).
    exists r, g, b. reflexivity. }
  split; [|exact Hin]. split.
  - intros H. destruct (Z.ltb_spec (sq_dist x y) overflow_threshold) as [Hlt | Hge].
    + split; [|exact Hlt].
      destruct (Z.ltb_spec (48 * 48) (sq_dist x y)) as [|Hhead]; [assumption|].
      destruct (Hin Hhead) as (r & g & b & E). rewrite E in H. discriminate H.
    + rewrite (make_pixel_raises x y Hge) in H. discriminate H.
  - intros [Hout Hlt]. rewrite (make_pixel_int_refines x y Hlt).
    unfold make_pixel_int. destruct (Z.leb_spec (sq_dist x y) (48 * 48)); [lia|].
    reflexivity.
Qed.

(** The three integer tests of [head_color], as propositions. *)
Lemma eyes_test_iff (x y : Z) :
  (43 <=? y) && (y <=? 55)
  && (((x - 48) * (x - 48) + (y - 48) * (y - 48) <=? 64)
      || ((x - 80) * (x - 80) + (y - 48) * (y - 48) <=? 64)) = true
  <-> 43 <= y <= 55 /\
      ((x - 48) * (x - 48) + (y - 48) * (y - 48) <= 64 \/
       (x - 80) * (x - 80) + (y - 48) * (y - 48) <= 64).
Proof. rewrite !andb_true_iff, orb_true_iff, !Z.leb_le. tauto. Qed.

Lemma mouth_test_iff (x y : Z) :
  (68 <=? y) && (y <=? 72) && ((48 <=? x) && (x <=? 80)) = true
  <-> 68 <= y <= 72 /\ 48 <= x <= 80.
Proof. rewrite !andb_true_iff, !Z.leb_le. tauto. Qed.

Lemma stem_test_iff (x y : Z) :
  (14 <=? y) && (y <=? 18) && ((62 <=? x) && (x <=? 66)) = true
  <-> 14 <= y <= 18 /\ 62 <= x <= 66.
Proof. rewrite !andb_true_iff, !Z.leb_le. tauto. Qed.

Lemma make_pixel_Ok_int (x y : Z) (c : rgba) :
  make_pixel x y = Ok c <->
  sq_dist x y < overflow_threshold /\ make_pixel_int x y = c.
Proof.
  destruct (Z.ltb_spec (sq_dist x y) overflow_threshold) as [Hlt | Hge].
  - rewrite (make_pixel_int_refines x y Hlt). split.
    + intros H. apply Ok_inj in H. split; assumption.
    + intros [_ ->]. reflexivity.
  - rewrite (make_pixel_raises x y Hge). split; [discriminate | lia].
Qed.

Lemma antenna_int_iff (x y : Z) :
  make_pixel_int x y = (100, 149, 237, 255) <->
  (x = 64 /\ y = 16) \/ (62 <= x <= 66 /\ 17 <= y <= 18).
Proof.
  split.
  - unfold make_pixel_int, head_color. change (48 * 48) with 2304.
    destruct (Z.leb_spec (sq_dist x y) 2304) as [Hhead | _]; [|discriminate].
    destruct (_ && _ && (_ || _)); [discriminate|].
    destruct ((68 <=? y) && _ && _); [discriminate|].
    destruct ((14 <=? y) && _ && _) eqn:Hstem; [|discriminate].
    intros _. apply stem_test_iff in Hstem. unfold sq_dist in Hhead.
    pose proof (Z.square_nonneg (x - 64)) as Hx.
    assert (Hy : 16 <= y) by nia.
    destruct (Z.eq_dec y 16) as [-> | Hne].
    + left. split; [nia | reflexivity].
    + right. lia.
  - intros [[-> ->] | [Hx Hy]]; [reflexivity|].
    assert (Hxs : x = 62 \/ x = 63 \/ x = 64 \/ x = 65 \/ x = 66) by lia.
    assert (Hys : y = 17 \/ y = 18) by lia.
    destruct Hxs as [-> | [-> | [-> | [-> | ->]]]], Hys as [-> | ->]; reflexivity.
Qed.

(** X5. The antenna is clipped by the head: the pixels of the antenna
    colour are exactly (64, 16) and the ten pixels with [62 <= x <= 66] and
    [17 <= y <= 18]. The rows 14 and 15 of the stem and the whole ball
    around (64, 10) are never drawn. *)
Theorem antenna_pixels (x y : Z) :
  make_pixel x y = Ok (100, 149, 237, 255) <->
  (x = 64 /\ y = 16) \/ (62 <= x <= 66 /\ 17 <= y <= 18).
Proof.
  rewrite make_pixel_Ok_int, antenna_int_iff. split; [tauto|].
  intros H. split; [|exact H]. apply grid_sq_dist; lia.
Qed.

Lemma eye_in_head (cx x y : Z) :
  cx = 48 \/ cx = 80 ->
  (x - cx) * (x - cx) + (y - 48) * (y - 48) <= 64 -> sq_dist x y <= 2304.
Proof.
  intros Hc H. unfold sq_dist.
  pose proof (Z.square_nonneg (x - cx)). pose proof (Z.square_nonneg (y - 48)).
  assert (Hy : 40 <= y <= 56) by nia.
  assert (Hx : cx - 8 <= x <= cx + 8) by nia.
  assert ((x - 64) * (x - 64) <= 576) by (destruct Hc; subst cx; nia).
  assert ((y - 64) * (y - 64) <= 576) by nia.
  lia.
Qed.

Lemma mouth_in_head (x y : Z) :
  68 <= y <= 72 -> 48 <= x <= 80 -> sq_dist x y <= 2304.
Proof.
  intros Hy Hx. unfold sq_dist.
  assert ((x - 64) * (x - 64) <= 256) by nia.
  assert ((y - 64) * (y - 64) <= 64) by nia.
  lia.
Qed.

Lemma white_int_iff (x y : Z) :
  make_pixel_int x y = (255, 255, 255, 255) <->
  (43 <= y <= 55 /\
   ((x - 48) * (x - 48) + (y - 48) * (y - 48) <= 64 \/
    (x - 80) * (x - 80) + (y - 48) * (y - 48) <= 64)) \/
  (68 <= y <= 72 /\ 48 <= x <= 80).
Proof.
  unfold make_pixel_int, head_color. change (48 * 48) with 2304. split.
  - destruct (sq_dist x y <=? 2304); [|discriminate].
    destruct (_ && _ && (_ || _)) eqn:He;
      [intros _; left; apply eyes_test_iff; exact He|].
    destruct ((68 <=? y) && _ && _) eqn:Hm;
      [intros _; right; apply mouth_test_iff; exact Hm|].
    destruct ((14 <=? y) && _ && _); discriminate.
  - intros H.
    assert (Hhead : sq_dist x y <= 2304).
    { destruct H as [[_ [H | H]] | [Hy Hx]].
      - apply (eye_in_head 48); [left; reflexivity | exact H].
      - apply (eye_in_head 80); [right; reflexivity | exact H].
      - apply mouth_in_head; assumption. }
    apply Z.leb_le in Hhead. rewrite Hhead.
    destruct H as [He | Hm].
    + apply eyes_test_iff in He. rewrite He. reflexivity.
    + apply mouth_test_iff in Hm. rewrite Hm.
      destruct (_ && _ && (_ || _)); reflexivity.
Qed.

(** X6. The white pixels are exactly those of the two eyes and of the
    mouth: the discs of radius 8 around (48, 48) and (80, 48), cut to the
    rows 43 to 55, and the rectangle [48 <= x <= 80], [68 <= y <= 72]; all
    of them lie inside the head, so the head test removes none. *)
Theorem white_pixels (x y : Z) :
  make_pixel x y = Ok (255, 255, 255, 255) <->
  (43 <= y <= 55 /\
   ((x - 48) * (x - 48) + (y - 48) * (y - 48) <= 64 \/
    (x - 80) * (x - 80) + (y - 48) * (y - 48) <= 64)) \/
  (68 <= y <= 72 /\ 48 <= x <= 80).
Proof.
  rewrite make_pixel_Ok_int, white_int_iff. split; [tauto|].
  intros H. split; [|exact H].
  assert (Hhead : sq_dist x y <= 2304).
  { destruct H as [[_ [H | H]] | [Hy Hx]].
    - apply (eye_in_head 48); [left; reflexivity | exact H].
    - apply (eye_in_head 80); [right; reflexivity | exact H].
    - apply mouth_in_head; assumption. }
  unfold overflow_threshold. lia.
Qed.

(** X7. The drawing leaves a margin of 16 pixels: a pixel of the image
    left of column 16, right of column 112, above row 16 or below row 112
    is transparent, and the head reaches these four lines at (16, 64),
    (112, 64), (64, 16) and (64, 112). *)
Theorem transparent_margin :
  (forall x y, 0 <= x < 128 -> 0 <= y < 128 ->
     x < 16 \/ 112 < x \/ y < 16 \/ 112 < y ->
     make_pixel x y = Ok (0, 0, 0, 0)) /\
  make_pixel 16 64 = Ok (65, 105, 225, 255) /\
  make_pixel 112 64 = Ok (65, 105, 225, 255) /\
  make_pixel 64 16 = Ok (100, 149, 237, 255) /\
  make_pixel 64 112 = Ok (65, 105, 225, 255).
Proof.
  split.
  - intros x y Hx Hy Hm.
    rewrite make_pixel_int_refines by (apply grid_sq_dist; assumption).
    unfold make_pixel_int. change (48 * 48) with 2304.
    destruct (Z.leb_spec (sq_dist x y) 2304) as [Hhead | _]; [|reflexivity].
    exfalso. unfold sq_dist in Hhead.
    pose proof (Z.square_nonneg (x - 64)). pose proof (Z.square_nonneg (y - 64)).
    destruct Hm as [Hm | [Hm | [Hm | Hm]]]; nia.
  - split; [vm_compute; reflexivity|]. split; [vm_compute; reflexivity|].
    split; vm_compute; reflexivity.
Qed.

(** * Further properties of the encoder *)

Lemma firstn_exact {A : Type} (a b : list A) (n : nat) :
  List.length a = n -> firstn n (a ++ b) = a.
Proof.
  intros <-. rewrite firstn_app, Nat.sub_diag, firstn_all, firstn_O.
  apply app_nil_r.
Qed.

Lemma skipn_plus {A : Type} (a b : list A) (n m : nat) :
  List.length a = n -> skipn (n + m) (a ++ b) = skipn m b.
Proof.
  intros <-. rewrite skipn_app, skipn_all2 by lia.
  cbn [app]. f_equal. lia.
Qed.

Lemma skipn_exact {A : Type} (a b : list A) (n : nat) :
  List.length a = n -> skipn n (a ++ b) = b.
Proof.
  intros <-. rewrite skipn_app, skipn_all, Nat.sub_diag. reflexivity.
Qed.

Lemma length_frame (ctype data : bytes) :
  List.length (frame ctype data)
  = (8 + List.length ctype + List.length data)%nat.
Proof. unfold frame. rewrite !length_app, !length_be32. lia. Qed.

(** Reading back a framed block, whatever follows it. *)
Lemma read_chunk_frame (ctype data rest : bytes) :
  List.length ctype = 4%nat ->
  Z.of_nat (List.length data) < 2 ^ 32 ->
  read_chunk (frame ctype data ++ rest) = Some (ctype, data, rest).
Proof.
  intros Hc Hlen. unfold read_chunk. cbv zeta.
  set (L := be32 (Z.of_nat (List.length data))).
  set (C := be32 (crc32 (ctype ++ data))).
  assert (Hs : frame ctype data ++ rest = L ++ ctype ++ data ++ C ++ rest).
  { unfold frame. fold L C. rewrite <- !app_assoc. reflexivity. }
  assert (HL : List.length L = 4%nat) by apply length_be32.
  assert (HC : List.length C = 4%nat) by apply length_be32.
  assert (Hn : Z.to_nat (be_to_Z L) = List.length data).
  { unfold L. rewrite be32_decodes by lia. apply Nat2Z.id. }
  assert (Hcrc : be_to_Z C = crc32 (ctype ++ data)).
  { unfold C. apply be32_decodes. apply crc32_range. }
  clearbody L C. rewrite Hs. clear Hs.
  rewrite (firstn_exact L _ 4 HL), Hn.
  replace (12 + List.length data)%nat
    with (4 + (4 + (List.length data + (4 + 0))))%nat by lia.
  replace (8 + List.length data)%nat
    with (4 + (4 + (List.length data + 0)))%nat by lia.
  replace 8%nat with (4 + (4 + 0))%nat by reflexivity.
  rewrite (skipn_exact L _ 4 HL).
  rewrite !(skipn_plus L _ 4 _ HL), !(skipn_plus ctype _ 4 _ Hc),
    !(skipn_plus data _ _ _ eq_refl), (skipn_plus C _ 4 0 HC), !skipn_O.
  rewrite (firstn_exact ctype _ 4 Hc), (firstn_exact data _ _ eq_refl).
  rewrite (firstn_exact C _ 4 HC), Hcrc, Z.eqb_refl.
  rewrite !length_app, HL, HC, Hc.
  destruct (Nat.leb_spec (4 + (4 + (List.length data + (4 + 0))))
              (4 + (4 + (List.length data + (4 + List.length rest))))); [|lia].
  reflexivity.
Qed.

(** X8. A chunk can be read back: for a type tag of four bytes, a reader
    that takes the length, the type, the data and the CRC from the front
    of a stream, and checks the CRC, gets the tag and the payload from the
    output of [chunk] and leaves what follows untouched; the output is 12
    bytes longer than the payload. *)
Theorem chunk_read_back (ctype data rest c : bytes) :
  List.length ctype = 4%nat ->
  chunk ctype data = Ok c ->
  read_chunk (c ++ rest) = Some (ctype, data, rest) /\
  List.length c = (12 + List.length data)%nat.
Proof.
  intros Hc Hchunk.
  destruct (Z.ltb_spec (Z.of_nat (List.length data)) (2 ^ 32)) as [Hlen | Hge].
  - rewrite (chunk_frame ctype data Hlen) in Hchunk. apply Ok_inj in Hchunk.
    subst c. split.
    + apply read_chunk_frame; assumption.
    + rewrite length_frame, Hc. lia.
  - rewrite (chunk_raises ctype data Hge) in Hchunk. discriminate Hchunk.
Qed.

Lemma chunk_read_back_witness :
  read_chunk ([x00; x00; x00; x00; x49; x45; x4e; x44; xae; x42; x60; x82] ++ [xff])
    = Some (IEND, [], [xff]).
Proof.
  assert (H1 : List.length IEND = 4%nat) by reflexivity.
  assert (H2 : chunk IEND []
               = Ok [x00; x00; x00; x00; x49; x45; x4e; x44; xae; x42; x60; x82])
    by (vm_compute; reflexivity).
  exact (proj1 (chunk_read_back IEND [] [xff] _ H1 H2)).
Defined.

(** X9. [chunk] fails in one way only: it raises [struct.error] exactly
    when the payload has [2^32] bytes or more, whatever the type tag. *)
Theorem chunk_errors (ctype data : bytes) (e : exn) :
  chunk ctype data = Raise e <->
  e = StructError /\ 2 ^ 32 <= Z.of_nat (List.length data).
Proof.
  destruct (Z.ltb_spec (Z.of_nat (List.length data)) (2 ^ 32)) as [Hlen | Hge].
  - rewrite (chunk_frame ctype data Hlen). split; [discriminate | lia].
  - rewrite (chunk_raises ctype data Hge). split.
    + intros H. injection H as <-. split; [reflexivity | exact Hge].
    + intros [-> _]. reflexivity.
Qed.

Lemma read_png_frames (payload : bytes) :
  Z.of_nat (List.length payload) < 2 ^ 32 ->
  read_png (sig ++ frame IHDR ihdr_bytes ++ frame IDAT payload ++ frame IEND [])
  = Some [(IHDR, ihdr_bytes); (IDAT, payload); (IEND, [])].
Proof.
  intros Hlen. unfold read_png.
  rewrite (firstn_exact sig _ 8 eq_refl), (skipn_exact sig _ 8 eq_refl).
  change (bytes_eqb sig sig) with true. cbv iota.
  rewrite length_app. change (List.length sig) with 8%nat.
  cbn [Nat.add read_chunks].
  rewrite (read_chunk_frame IHDR ihdr_bytes) by (reflexivity || (cbn; lia)).
  change (bytes_eqb IHDR IEND) with false. cbv iota.
  rewrite (read_chunk_frame IDAT payload) by (reflexivity || assumption).
  change (bytes_eqb IDAT IEND) with false. cbv iota.
  rewrite <- (app_nil_r (frame IEND [])).
  rewrite (read_chunk_frame IEND []) by (reflexivity || (cbn; lia)).
  change (bytes_eqb IEND IEND) with true. cbv iota.
  reflexivity.
Qed.

Lemma length_stream (payload : bytes) :
  Z.of_nat (List.length
              (sig ++ frame IHDR ihdr_bytes ++ frame IDAT payload ++ frame IEND []))
  = 57 + Z.of_nat (List.length payload).
Proof.
  rewrite !length_app, !length_frame.
  change (List.length sig) with 8%nat. change (List.length IHDR) with 4%nat.
  change (List.length IDAT) with 4%nat. change (List.length IEND) with 4%nat.
  change (List.length ihdr_bytes) with 13%nat.
  change (List.length (@nil byte)) with 0%nat. lia.
Qed.

(** X10. The stream the script produces reads back as a PNG file: after
    the signature a reader finds exactly three chunks with matching CRCs,
    IHDR with the 13 bytes of the header, IDAT with the answer of the
    compressor and the empty IEND, and nothing after it. *)
Theorem png_reads_back
  (zlib_compress : bytes -> Z -> result bytes) (payload : bytes) :
  zlib_compress buffer 9 = Ok payload ->
  Z.of_nat (List.length payload) < 2 ^ 32 ->
  exists p,
    png zlib_compress = Ok p /\
    read_png p = Some [(IHDR, ihdr_bytes); (IDAT, payload); (IEND, [])].
Proof.
  intros Hz Hlen. eexists. split.
  - apply png_eq; eassumption.
  - apply read_png_frames. exact Hlen.
Qed.

Lemma png_reads_back_witness :
  exists p,
    png (fun data _ => Ok data) = Ok p /\
    read_png p = Some [(IHDR, ihdr_bytes); (IDAT, buffer); (IEND, [])].
Proof.
  assert (H1 : (fun (data : bytes) (_ : Z) => Ok data) buffer 9 = Ok buffer)
    by reflexivity.
  assert (H2 : Z.of_nat (List.length buffer) < 2 ^ 32) by (vm_compute; reflexivity).
  exact (png_reads_back (fun data _ => Ok data) buffer H1 H2).
Defined.

(** X11. The stream is 57 bytes longer than the compressed payload (8 of
    signature, 25 of IHDR, 12 around the payload, 12 of IEND), and this
    number is the byte count the script prints after it has written
    the file. *)
Theorem stream_length_printed
  (zlib_compress : bytes -> Z -> result bytes) (payload : bytes) (file : string) :
  zlib_compress buffer 9 = Ok payload ->
  Z.of_nat (List.length payload) < 2 ^ 32 ->
  exists p,
    png zlib_compress = Ok p /\
    Z.of_nat (List.length p) = 57 + Z.of_nat (List.length payload) /\
    script zlib_compress file =
      Ok [ Makedirs (dirname (outpath file)) true;
           WriteFile (outpath file) p;
           Print ("Created icon.png: "
                  ++ decimal (57 + Z.of_nat (List.length payload))
                  ++ " bytes")%string ].
Proof.
  intros Hz Hlen. eexists. split; [apply png_eq; eassumption|]. split.
  - apply length_stream.
  - unfold script. rewrite (png_eq zlib_compress payload Hz Hlen). cbn [bind].
    rewrite length_stream. reflexivity.
Qed.

Lemma stream_length_printed_witness :
  exists p,
    png (fun data _ => Ok data) = Ok p /\
    Z.of_nat (List.length p) = 57 + Z.of_nat (List.length buffer) /\
    script (fun data _ => Ok data) "/repo/scripts/create_icon.py" =
      Ok [ Makedirs (dirname (outpath "/repo/scripts/create_icon.py")) true;
           WriteFile (outpath "/repo/scripts/create_icon.py") p;
           Print ("Created icon.png: "
                  ++ decimal (57 + Z.of_nat (List.length buffer))
                  ++ " bytes")%string ].
Proof.
  assert (H1 : (fun (data : bytes) (_ : Z) => Ok data) buffer 9 = Ok buffer)
    by reflexivity.
  assert (H2 : Z.of_nat (List.length buffer) < 2 ^ 32) by (vm_compute; reflexivity).
  exact (stream_length_printed (fun data _ => Ok data) buffer
           "/repo/scripts/create_icon.py" H1 H2).
Defined.

(** X12. The computation of the stream, which comes before every call to
    the operating system, fails in two ways only: it raises what the
    compressor raised, or [struct.error] when the compressed payload has
    [2^32] bytes or more; and when it fails the script stops there,
    before [makedirs] and [open]. *)
Theorem png_errors
  (zlib_compress : bytes -> Z -> result bytes) (e : exn) :
  (png zlib_compress = Raise e <->
   zlib_compress buffer 9 = Raise e \/
   (exists payload,
      zlib_compress buffer 9 = Ok payload /\
      2 ^ 32 <= Z.of_nat (List.length payload) /\ e = StructError)) /\
  (forall file, png zlib_compress = Raise e -> script zlib_compress file = Raise e).
Proof.
  split.
  - unfold png, idat. rewrite raw_buffer, ihdr_eq. cbn [bind].
    destruct (zlib_compress buffer 9) as [payload | e0]; cbn [bind].
    + rewrite (chunk_frame IHDR) by (cbn; lia). cbn [bind].
      destruct (Z.ltb_spec (Z.of_nat (List.length payload)) (2 ^ 32)) as [Hlen | Hge].
      * rewrite (chunk_frame IDAT payload Hlen). cbn [bind].
        rewrite (chunk_frame IEND) by (cbn; lia). cbn [bind]. split.
        -- discriminate.
        -- intros [H | (q & Hq & Hge & _)]; [discriminate H|].
           apply Ok_inj in Hq. subst q. lia.
      * rewrite (chunk_raises IDAT payload Hge). cbn [bind]. split.
        -- intros H. injection H as <-. right. exists payload.
           split; [reflexivity|]. split; [exact Hge | reflexivity].
        -- intros [H | (q & _ & _ & ->)]; [discriminate H | reflexivity].
    + split.
      * intros H. left. exact H.
      * intros [H | (q & Hq & _)]; [exact H | discriminate Hq].
  - intros file H. unfold script. rewrite H. reflexivity.
Qed.
